(** * offroad_navigation: network utilities and the training loop

    A shallow embedding of [models/network_utils.py] and [scripts/train.py].

    Modelling conventions.
    - Torch tensors are nested lists read in row-major order; a 4-D tensor
      also records its shape, so that an empty batch still has a channel
      count, a height and a width.
    - Float arithmetic is idealised: tensor entries are real numbers ([R]),
      Python scalars that are only added and divided are rationals ([Q]).
      Rounding is therefore outside the model.
    - A Python exception is a value [Raise e] of the type [result]; sequencing
      stops at the first exception, as the interpreter does.
    - Collaborators that live outside the two source files (the policy model,
      the optimizer, the data loader, the experiment logger) are Section
      variables. *)

From Stdlib Require Import List ZArith QArith Qround Reals Lra Lia Bool Arith.
Import ListNotations.

Set Implicit Arguments.

(** ** Exceptions and the error monad *)

Inductive exn : Set :=
| IndexError
| RuntimeError
| AssertionError
| ZeroDivisionError
| ValueError.

Inductive result (A : Type) : Type :=
| Ok (a : A)
| Raise (e : exn).

Arguments Ok {A} a.
Arguments Raise {A} e.

Definition bind {A B : Type} (m : result A) (k : A -> result B) : result B :=
  match m with
  | Ok a => k a
  | Raise e => Raise e
  end.

Notation "x <- m ;; k" := (bind m (fun x => k))
  (at level 61, m at next level, right associativity).

Fixpoint mapM {A B : Type} (f : A -> result B) (l : list A) : result (list B) :=
  match l with
  | [] => Ok []
  | a :: l' => b <- f a ;; bs <- mapM f l' ;; Ok (b :: bs)
  end.

(** ** Indexing *)

(** [t[i]] along an axis of [n] entries: indices in [-n, n) are accepted and
    the negative ones count from the end; anything else is an [IndexError]. *)
Definition norm_index (n : nat) (i : Z) : result nat :=
  if ((i <? - Z.of_nat n) || (Z.of_nat n <=? i))%Z then Raise IndexError
  else Ok (Z.to_nat (if (i <? 0)%Z then i + Z.of_nat n else i)%Z).

Definition getitem {A : Type} (t : list A) (i : Z) : result A :=
  k <- norm_index (length t) i ;;
  match nth_error t k with
  | Some a => Ok a
  | None => Raise IndexError
  end.

(** Two 1-D index tensors used together are broadcast against each other:
    equal lengths pair up, a length-1 tensor is repeated, anything else is
    a shape mismatch. *)
Definition broadcast_index {X Y : Type} (xs : list X) (ys : list Y)
  : result (list (X * Y)) :=
  if Nat.eqb (length xs) (length ys) then Ok (combine xs ys)
  else match xs, ys with
       | _, [y] => Ok (map (fun x => (x, y)) xs)
       | [x], _ => Ok (map (fun y => (x, y)) ys)
       | _, _ => Raise IndexError
       end.

(** [Tensor.long()]: conversion to a 64-bit integer, truncating towards 0. *)
Definition long (c : Q) : Z := Z.quot (Qnum c) (Z.pos (Qden c)).

(** [torch.arange(n)] *)
Definition arange (n : nat) : list Z := map Z.of_nat (seq 0 n).

(** ** [select_branch] *)

Definition select_branch {A : Type} (branches : list (list A)) (command : list Q)
  : result (list A) :=
  let command := map long command in
  idx <- broadcast_index (arange (length branches)) command ;;
  mapM (fun ic : Z * Z => row <- getitem branches (fst ic) ;; getitem row (snd ic)) idx.

(** ** Tensors and broadcasting arithmetic *)

Local Open Scope R_scope.

(** A 4-D float tensor: its shape and its entries, outermost axis first. *)
Record tensor4 : Type := Tensor4 {
  shape4 : nat * nat * nat * nat;
  data4 : list (list (list (list R)))
}.

(** The entries agree with the recorded shape. *)
Definition wf4 (x : tensor4) : Prop :=
  let '(n, c, h, w) := shape4 x in
  length (data4 x) = n /\
  Forall (fun s => length s = c /\
    Forall (fun ch => length ch = h /\
      Forall (fun row => length row = w) ch) s) (data4 x).

(** Sizes of one axis of the two operands of an elementwise operation. *)
Definition broadcast_dim (a b : nat) : result nat :=
  if Nat.eqb a b then Ok a
  else if Nat.eqb a 1 then Ok b
  else if Nat.eqb b 1 then Ok a
  else Raise RuntimeError.

Definition broadcast_shape (s t : nat * nat * nat * nat)
  : result (nat * nat * nat * nat) :=
  let '(n1, c1, h1, w1) := s in
  let '(n2, c2, h2, w2) := t in
  n <- broadcast_dim n1 n2 ;;
  c <- broadcast_dim c1 c2 ;;
  h <- broadcast_dim h1 h2 ;;
  w <- broadcast_dim w1 w2 ;;
  Ok (n, c, h, w).

(** One axis of a broadcasting elementwise operation. *)
Definition bzip {A B C : Type} (f : A -> B -> result C)
    (xs : list A) (ys : list B) : result (list C) :=
  if Nat.eqb (length xs) (length ys)
  then mapM (fun p : A * B => f (fst p) (snd p)) (combine xs ys)
  else match xs, ys with
       | [x], _ => mapM (fun y => f x y) ys
       | _, [y] => mapM (fun x => f x y) xs
       | _, _ => Raise RuntimeError
       end.

Definition binop4 (op : R -> R -> R) (x y : tensor4) : result tensor4 :=
  s <- broadcast_shape (shape4 x) (shape4 y) ;;
  d <- bzip (bzip (bzip (bzip (fun a b => Ok (op a b))))) (data4 x) (data4 y) ;;
  Ok (Tensor4 s d).

(** ** Device placement *)

Inductive Device : Set :=
| cpu
| cuda (index : nat).

Definition Device_eqb (d e : Device) : bool :=
  match d, e with
  | cpu, cpu => true
  | cuda i, cuda j => Nat.eqb i j
  | _, _ => false
  end.

(** A tensor together with the device that holds it. *)
Record placed : Type := Placed {
  device : Device;
  value : tensor4
}.

(** [Tensor.to(device)] *)
Definition to (d : Device) (x : placed) : placed := Placed d (value x).

(** An arithmetic operation between tensors held by different devices is
    refused. *)
Definition pbinop (op : R -> R -> R) (x y : placed) : result placed :=
  if Device_eqb (device x) (device y)
  then v <- binop4 op (value x) (value y) ;; Ok (Placed (device x) v)
  else Raise RuntimeError.

Definition sub := pbinop Rminus.
Definition div := pbinop Rdiv.
Definition mul := pbinop Rmult.
Definition add := pbinop Rplus.

(** [torch.FloatTensor(v).reshape(1, 3, 1, 1)]: a new CPU tensor; the
    reshape needs exactly three entries. *)
Definition stats_tensor (v : list R) : result placed :=
  if Nat.eqb (length v) 3
  then Ok (Placed cpu (Tensor4 (1, 3, 1, 1)%nat [map (fun m => [[m]]) v]))
  else Raise RuntimeError.

(** The name of a saved entry of a module's [state_dict]. *)
Inductive key : Set := key_mean | key_std.

(** ** [Normalize] *)

Module Normalize.

(** [mean] and [std] are [nn.Parameter]s: they are part of the module's
    state. *)
Record t : Type := Make { mean : placed; std : placed }.

Definition init (mean std : list R) : result t :=
  m <- stats_tensor mean ;;
  s <- stats_tensor std ;;
  Ok (Make m s).

Definition forward (self : t) (x : placed) : result placed :=
  d <- sub x (mean self) ;;
  div d (std self).

(** [nn.Module.to(device)] moves every parameter. *)
Definition module_to (d : Device) (self : t) : t :=
  Make (to d (mean self)) (to d (std self)).

(** [nn.Module.state_dict()] lists the parameters. *)
Definition state_dict (self : t) : list (key * tensor4) :=
  [(key_mean, value (mean self)); (key_std, value (std self))].

End Normalize.

(** ** [NormalizeV2] *)

Module NormalizeV2.

(** [mean] and [std] are plain attributes: tensors that the module holds
    but does not own as parameters or buffers. *)
Record t : Type := Make { mean : placed; std : placed }.

Definition init (mean std : list R) : result t :=
  m <- stats_tensor mean ;;
  s <- stats_tensor std ;;
  Ok (Make m s).

Definition forward (self : t) (x : placed) : result placed :=
  let mean := to (device x) (mean self) in
  let std := to (device x) (std self) in
  d <- sub x mean ;;
  div d std.

(** There is no parameter to move. *)
Definition module_to (d : Device) (self : t) : t := self.

(** There is no parameter to save. *)
Definition state_dict (self : t) : list (key * tensor4) := [].

End NormalizeV2.

(** Undoing the normalisation with the same statistics:
    [y * std + mean]. *)
Definition denormalize (mean std : placed) (y : placed) : result placed :=
  p <- mul y std ;;
  add p mean.

(** ** The coordinate grid *)

(** [np.linspace(start, stop, num)] *)
Definition linspace (start stop : R) (num : nat) : list R :=
  map (fun i => start + INR i * ((stop - start) / INR (num - 1))) (seq 0 num).

(** [np.meshgrid(x, y)] with the default ['xy'] indexing: both results have
    [length y] rows of [length x] entries. *)
Definition meshgrid (x y : list R) : list (list R) * list (list R) :=
  (map (fun _ => x) y, map (fun yi => map (fun _ => yi) x) y).

(** [a.reshape(-1)] of a 2-D array *)
Definition reshape_flat (a : list (list R)) : list R := concat a.

Definition sum (l : list R) : R := fold_right Rplus 0 l.

(** [F.softmax(z, dim=-1)] on one row *)
Definition softmax (z : list R) : list R :=
  let e := map exp z in
  map (fun v => v / sum e) e.

(** [torch.sum(pos * weight, dim=1)] on one row; the product broadcasts. *)
Definition expected (pos weight : list R) : result R :=
  p <- bzip (fun a b => Ok (a * b)) pos weight ;;
  Ok (sum p).

Inductive data_format : Set := NCHW | NHWC.

(** The [temperature] attribute is either an [nn.Parameter] or a Python
    float. *)
Inductive temperature : Type :=
| Trainable (t : R)
| Fixed (t : R).

Definition temperature_value (t : temperature) : R :=
  match t with
  | Trainable v => v
  | Fixed v => v
  end.

(** Truth value of the optional [temperature] argument: [None] and zero are
    false. *)
Definition truthy (t : option R) : bool :=
  match t with
  | None => false
  | Some v => if Req_dec_T v 0 then false else true
  end.

(** [nn.Parameter(torch.ones(1) * temperature) if temperature else 1.0] *)
Definition init_temperature (t : option R) : temperature :=
  match t with
  | Some v => if truthy t then Trainable (1 * v) else Fixed 1
  | None => Fixed 1
  end.

(** [feature.permute(0, 3, 1, 2)]: from (N, H, W, C) to (N, C, H, W).  Only
    the entries are followed: the stride test that [view] applies to a
    permuted tensor is not part of the model. *)
Definition permute_0312 (x : tensor4) : tensor4 :=
  let '(n, h, w, c) := shape4 x in
  Tensor4 (n, c, h, w)
    (map (fun s => map (fun k => map (map (fun px => nth k px 0)) s) (seq 0 c))
         (data4 x)).

(** ** [SpatialSoftmax] *)

Module SpatialSoftmax.

Record t : Type := Make {
  format : data_format;
  height : nat;
  width : nat;
  channel : nat;
  temp : temperature;
  pos_x : list R;
  pos_y : list R
}.

Definition init (height width channel : nat) (temperature : option R)
    (format : data_format) : t :=
  let '(pos_x, pos_y) :=
    meshgrid (linspace (-1) 1 height) (linspace (-1) 1 width) in
  Make format height width channel (init_temperature temperature)
       (reshape_flat pos_x) (reshape_flat pos_y).

(** The rows of [feature.view(N * C, H * W)] are visited sample by sample
    and channel by channel, which is also the order of the final
    [view(N, C, 2)]. *)
Definition forward (self : t) (feature : tensor4)
  : result (list (list (R * R))) :=
  let feature := match format self with
                 | NHWC => permute_0312 feature
                 | NCHW => feature
                 end in
  mapM (mapM (fun ch : list (list R) =>
    let row := reshape_flat ch in
    let weight :=
      softmax (map (fun v => v / temperature_value (temp self)) row) in
    expected_x <- expected (pos_x self) weight ;;
    expected_y <- expected (pos_y self) weight ;;
    Ok (expected_x, expected_y))) (data4 feature).

End SpatialSoftmax.

(** ** [SpatialSoftmaxV2] *)

Module SpatialSoftmaxV2.

Record t : Type := Make {
  format : data_format;
  height : nat;
  width : nat;
  channel : nat;
  x_range : R * R;
  y_range : R * R;
  temp : temperature;
  pos_x : list R;
  pos_y : list R
}.

Definition init (height width channel : nat) (temperature : option R)
    (format : data_format) (x_range y_range : R * R) : t :=
  let '(pos_x, pos_y) :=
    meshgrid (linspace (-1) 1 height) (linspace (-1) 1 width) in
  Make format height width channel x_range y_range
       (init_temperature temperature)
       (reshape_flat pos_x) (reshape_flat pos_y).

Definition forward (self : t) (feature : tensor4)
  : result (list (list (R * R))) :=
  let feature := match format self with
                 | NHWC => permute_0312 feature
                 | NCHW => feature
                 end in
  let '(_, _, H, W) := shape4 feature in
  if Nat.eqb H (height self) && Nat.eqb W (width self) then
    mapM (mapM (fun ch : list (list R) =>
      let row := reshape_flat ch in
      let weight :=
        softmax (map (fun v => v / temperature_value (temp self)) row) in
      expected_x <- expected (pos_x self) weight ;;
      expected_y <- expected (pos_y self) weight ;;
      let '(x_min, x_max) := x_range self in
      let '(y_min, y_max) := y_range self in
      let x_m := ((expected_x + 1) / 2) * (x_max - x_min) + x_min in
      let y_m := ((expected_y + 1) / 2) * (y_max - y_min) + y_min in
      Ok (x_m, y_m))) (data4 feature)
  else Raise AssertionError.

End SpatialSoftmaxV2.

(** ** The training script *)

Local Close Scope R_scope.

(** [int(x)] of a Python number: truncation towards zero. *)
Definition int (x : Q) : Z := Z.quot (Qnum x) (Z.pos (Qden x)).

(** [len(x)] as a Python number *)
Definition len {A : Type} (l : list A) : Q := inject_Z (Z.of_nat (length l)).

(** [a / b] on Python numbers *)
Definition truediv (a b : Q) : result Q :=
  if Qeq_bool b 0 then Raise ZeroDivisionError else Ok (a / b)%Q.

(** The sum and the arithmetic mean of a list of Python numbers. *)
Definition Qsum (l : list Q) : Q := fold_right Qplus 0%Q l.

Definition arithmetic_mean (l : list Q) : Q :=
  (Qsum l / inject_Z (Z.of_nat (length l)))%Q.

(** What the script does to the optimizer, the progress bar, the experiment
    logger and the checkpoint directory, in program order. *)
Inductive event : Type :=
| ZeroGrad
| Backward
| Step
| SetPostfix (loss : Q)
| WandbLoss (loss : Q) (step : nat)
| WandbInit
| WandbEpoch (epoch : nat) (train_loss val_loss : Q)
| WandbFinish
| SaveEpoch (epoch : nat)
| SaveModel.

Definition optimizer_event (e : event) : bool :=
  match e with
  | ZeroGrad | Backward | Step => true
  | _ => false
  end.

Record Config : Type := {
  val_ratio : Q;
  batch_size : nat;
  epochs : nat;
  epoch_save : bool;
  save : bool;
  wandb_log : bool
}.

Section Train.

(** The policy network: its parameters, their gradients, its inputs and
    outputs.  [model training params obs] is the forward pass in training
    or evaluation mode; it reads the parameters and does not write them. *)
Variables Params Grads Obs Act Pred : Type.
Variable model : bool -> Params -> Obs -> Pred.
Variable loss_fn : Pred -> Act -> Q.
(** [loss.backward()]: the gradient of the batch loss, added to the
    gradient already stored, if any. *)
Variable backward : bool -> Params -> Obs -> Act -> option Grads -> Grads.
(** [optimizer.step()] *)
Variable OptState : Type.
Variable optimizer_step : OptState -> Params -> option Grads -> OptState * Params.
(** [x.to(device)] on every tensor of an observation or action tuple *)
Variable obs_to : Device -> Obs -> Obs.
Variable act_to : Device -> Act -> Act.

Record world : Type := World {
  params : Params;
  grads : option Grads;
  opt_state : OptState;
  training : bool;
  trace : list event
}.

Definition emit (e : event) (s : world) : world :=
  World (params s) (grads s) (opt_state s) (training s) (trace s ++ [e]).

(** [model.train()] and [model.eval()] *)
Definition set_training (b : bool) (s : world) : world :=
  World (params s) (grads s) (opt_state s) b (trace s).

Definition zero_grad (s : world) : world :=
  emit ZeroGrad (World (params s) None (opt_state s) (training s) (trace s)).

Definition loss_backward (obs : Obs) (act : Act) (s : world) : world :=
  emit Backward
    (World (params s)
           (Some (backward (training s) (params s) obs act (grads s)))
           (opt_state s) (training s) (trace s)).

Definition step (s : world) : world :=
  let '(o, p) := optimizer_step (opt_state s) (params s) (grads s) in
  emit Step (World p (grads s) o (training s) (trace s)).

Definition Batch : Type := (Obs * Act)%type.

(** The body of the training loop on the batch number [batch_idx]. *)
Definition train_batch (n_batches : nat) (device : Device) (epoch : nat)
    (log_to_wandb : bool) (batch_idx : nat) (b : Batch)
    (acc : Q * world) : Q * world :=
  let '(total_loss, s) := acc in
  let obs := obs_to device (fst b) in
  let act := act_to device (snd b) in
  let pred := model (training s) (params s) obs in
  let loss := loss_fn pred act in
  let s := zero_grad s in
  let s := loss_backward obs act s in
  let s := step s in
  let total_loss := (total_loss + loss)%Q in
  let s := emit (SetPostfix loss) s in
  let s := if log_to_wandb
           then emit (WandbLoss loss (epoch * n_batches + batch_idx)) s
           else s in
  (total_loss, s).

(** [for batch_idx, b in enumerate(loader)], starting at [batch_idx]. *)
Fixpoint enumerate_loop {Acc : Type} (body : nat -> Batch -> Acc -> Acc)
    (batch_idx : nat) (loader : list Batch) (acc : Acc) : Acc :=
  match loader with
  | [] => acc
  | b :: rest => enumerate_loop body (S batch_idx) rest (body batch_idx b acc)
  end.

Definition train_epoch (loader : list Batch) (device : Device) (epoch : nat)
    (log_to_wandb : bool) (s : world) : result Q * world :=
  let s := set_training true s in
  let '(total_loss, s) :=
    enumerate_loop
      (train_batch (length loader) device epoch log_to_wandb)
      0 loader (0%Q, s) in
  (truediv total_loss (len loader), s).

(** The body of the validation loop. *)
Definition validate_batch (device : Device) (batch_idx : nat) (b : Batch)
    (acc : Q * world) : Q * world :=
  let '(total_loss, s) := acc in
  let obs := obs_to device (fst b) in
  let act := act_to device (snd b) in
  let pred := model (training s) (params s) obs in
  let loss := loss_fn pred act in
  let total_loss := (total_loss + loss)%Q in
  let s := emit (SetPostfix loss) s in
  (total_loss, s).

Definition validate_epoch (loader : list Batch) (device : Device)
    (epoch : nat) (log_to_wandb : bool) (s : world) : result Q * world :=
  let s := set_training false s in
  let '(total_loss, s) :=
    enumerate_loop (validate_batch device) 0 loader (0%Q, s) in
  (truediv total_loss (len loader), s).

(** The scalar loss of one batch in the state [s]: what both loops compute
    as [loss_fn(model( *obs), *act)]. *)
Definition batch_loss (device : Device) (b : Batch) (s : world) : Q :=
  loss_fn (model (training s) (params s) (obs_to device (fst b)))
          (act_to device (snd b)).

(** The per-batch losses of a training pass, each taken in the state that
    the batches before it have left. *)
Fixpoint train_losses (n_batches : nat) (device : Device) (epoch : nat)
    (log_to_wandb : bool) (batch_idx : nat) (loader : list Batch) (s : world)
  : list Q :=
  match loader with
  | [] => []
  | b :: rest =>
    batch_loss device b s ::
    train_losses n_batches device epoch log_to_wandb (S batch_idx) rest
      (snd (train_batch n_batches device epoch log_to_wandb batch_idx b
              (0%Q, s)))
  end.

(** The per-batch losses of a validation pass. *)
Definition validate_losses (device : Device) (loader : list Batch) (s : world)
  : list Q :=
  map (fun b => batch_loss device b (set_training false s)) loader.

(** *** [main] *)

(** The data set, the split and the loaders come from outside the script.
    A loader is given by the batches it yields in each epoch. *)
Variable Sample : Type.
Variable random_split :
  list Sample -> Z -> Z -> result (list Sample * list Sample).
Variable DataLoader : list Sample -> nat -> bool -> nat -> list Batch.

(** One turn of [for epoch in range(cfg.train.epochs)]. *)
Definition epoch_body (cfg : Config) (device : Device)
    (train_loader val_loader : nat -> list Batch) (epoch : nat) (s : world)
  : result unit * world :=
  let '(r, s) :=
    train_epoch (train_loader epoch) device epoch (wandb_log cfg) s in
  match r with
  | Raise e => (Raise e, s)
  | Ok train_loss =>
    let '(r, s) :=
      validate_epoch (val_loader epoch) device epoch (wandb_log cfg) s in
    match r with
    | Raise e => (Raise e, s)
    | Ok val_loss =>
      let s := if epoch_save cfg then emit (SaveEpoch (epoch + 1)) s else s in
      let s := if wandb_log cfg
               then emit (WandbEpoch (epoch + 1) train_loss val_loss) s
               else s in
      (Ok tt, s)
    end
  end.

(** The epochs [epoch], [epoch + 1], ..., [epoch + n - 1]. *)
Fixpoint epoch_loop (cfg : Config) (device : Device)
    (train_loader val_loader : nat -> list Batch) (n epoch : nat) (s : world)
  : result unit * world :=
  match n with
  | O => (Ok tt, s)
  | S n' =>
    let '(r, s) := epoch_body cfg device train_loader val_loader epoch s in
    match r with
    | Raise e => (Raise e, s)
    | Ok _ => epoch_loop cfg device train_loader val_loader n' (S epoch) s
    end
  end.

(** [main], from the data set on; [s] holds the freshly built model and
    optimizer. *)
Definition main (cfg : Config) (device : Device) (dataset : list Sample)
    (s : world) : result unit * world :=
  let s := if wandb_log cfg then emit WandbInit s else s in
  let val_size := int (len dataset * val_ratio cfg) in
  let train_size := (Z.of_nat (length dataset) - val_size)%Z in
  match random_split dataset train_size val_size with
  | Raise e => (Raise e, s)
  | Ok (train_dataset, val_dataset) =>
    let train_loader := DataLoader train_dataset (batch_size cfg) true in
    let val_loader := DataLoader val_dataset (batch_size cfg) false in
    let '(r, s) :=
      epoch_loop cfg device train_loader val_loader (epochs cfg) 0 s in
    match r with
    | Raise e => (Raise e, s)
    | Ok _ =>
      let s := if save cfg then emit SaveModel s else s in
      let s := if wandb_log cfg then emit WandbFinish s else s in
      (Ok tt, s)
    end
  end.

End Train.

(** ** Closed forms used in the statements *)

Local Open Scope R_scope.

(** The entries of [x op v], where [v] has one entry per channel. *)
Definition channelwise (op : R -> R -> R) (v : list R)
    (d : list (list (list (list R)))) : list (list (list (list R))) :=
  map (fun s => map (fun cm => map (map (fun a => op a (snd cm))) (fst cm))
                    (combine s v)) d.

(** The entries of [(x - mean) / std]. *)
Definition normalized (mean std : list R)
    (d : list (list (list (list R)))) : list (list (list (list R))) :=
  map (fun s =>
         map (fun c => map (map (fun a => (a - fst (snd c)) / snd (snd c)))
                           (fst c))
             (combine s (combine mean std))) d.

(** [pos . weight] for operands of the same length. *)
Definition dot (pos weight : list R) : R :=
  sum (map (fun p => fst p * snd p) (combine pos weight)).

(** One coordinate of the expected position of a flattened feature row at
    temperature [T]. *)
Definition soft_argmax (pos : list R) (T : R) (row : list R) : R :=
  dot pos (softmax (map (fun v => v / T) row)).

(** The map from [-1, 1] to a physical range, in the words of the
    specification: [(normalized + 1) / 2 * (max - min) + min]. *)
Definition value_m (range : R * R) (normalized : R) : R :=
  (normalized + 1) / 2 * (snd range - fst range) + fst range.

(** The entries of a one-channel batch with the channel of every sample
    taken three times. *)
Definition expand_channels (d : list (list (list (list R))))
  : list (list (list (list R))) :=
  map (flat_map (fun ch => [ch; ch; ch])) d.

(** [feature + c]: the same constant added to every entry. *)
Definition shift4 (c : R) (x : tensor4) : tensor4 :=
  Tensor4 (shape4 x) (map (map (map (map (fun v => v + c)))) (data4 x)).

Local Close Scope R_scope.

(** The step numbers passed to [wandb.log] by the training loop, in program
    order. *)
Definition wandb_steps (tr : list event) : list nat :=
  flat_map (fun ev => match ev with WandbLoss _ st => [st] | _ => [] end) tr.

(** The checkpoints written, in program order. *)
Definition is_checkpoint (ev : event) : bool :=
  match ev with
  | SaveEpoch _ | SaveModel => true
  | _ => false
  end.

Definition checkpoints (tr : list event) : list event := filter is_checkpoint tr.

(** ** A one-weight instance of the collaborators

    The model multiplies its input by its single parameter, the loss is the
    squared error, the optimizer is gradient descent with step 1/10, a
    sample is a batch of its own, and the split keeps the order of the data
    set. *)

Module Toy.

Definition model (training : bool) (p x : Q) : Q := (p * x)%Q.

Definition loss_fn (pred act : Q) : Q := ((pred - act) * (pred - act))%Q.

Definition backward (training : bool) (p x a : Q) (g : option Q) : Q :=
  (match g with Some g0 => g0 | None => 0 end + 2 * (p * x - a) * x)%Q.

Definition optimizer_step (o : unit) (p : Q) (g : option Q) : unit * Q :=
  (o, match g with Some g0 => p - (1 # 10) * g0 | None => p end)%Q.

Definition to (d : Device) (x : Q) : Q := x.

Definition random_split (dataset : list (Q * Q)) (a b : Z)
  : result (list (Q * Q) * list (Q * Q)) :=
  if ((0 <=? a) && (0 <=? b) && (a + b =? Z.of_nat (length dataset)))%Z
  then Ok (firstn (Z.to_nat a) dataset, skipn (Z.to_nat a) dataset)
  else Raise ValueError.

Definition DataLoader (dataset : list (Q * Q)) (batch_size : nat)
    (shuffle : bool) (epoch : nat) : list (Q * Q) := dataset.

Definition s0 : world Q Q unit := World 1%Q None tt true [].

Definition cfg : Config :=
  {| val_ratio := 1 # 10; batch_size := 1; epochs := 2;
     epoch_save := true; save := true; wandb_log := false |}.

Definition dataset : list (Q * Q) := [(1, 2); (2, 4); (3, 6)]%Q.

(** A third of the data set goes to validation. *)
Definition cfg_third : Config :=
  {| val_ratio := 1 # 3; batch_size := 1; epochs := 2;
     epoch_save := true; save := true; wandb_log := true |}.

End Toy.

(** * Properties *)

(** ** The error monad *)

Lemma mapM_Forall2 (A B : Type) (f : A -> result B) (l : list A) (out : list B) :
  mapM f l = Ok out <-> Forall2 (fun a b => f a = Ok b) l out.
Proof.
  revert out; induction l as [|a l IH]; intros out; simpl.
  - split; intros H.
    + injection H as <-. constructor.
    + inversion H. reflexivity.
  - destruct (f a) as [b|e] eqn:Hfa; simpl.
    + destruct (mapM f l) as [bs|e] eqn:Hm; simpl.
      * split; intros H.
        -- injection H as <-. constructor; [assumption|]. now apply IH.
        -- inversion H as [|a' b' l' out' Hb Hrest]; subst.
           rewrite Hfa in Hb. injection Hb as <-.
           apply IH in Hrest. now injection Hrest as <-.
      * split; intros H; [discriminate|].
        inversion H as [|a' b' l' out' Hb Hrest]; subst.
        apply IH in Hrest. discriminate.
    + split; intros H; [discriminate|].
      inversion H as [|a' b' l' out' Hb Hrest]; subst. congruence.
Qed.

Lemma mapM_total (A B : Type) (f : A -> result B) (l : list A) :
  Forall (fun a => exists b, f a = Ok b) l -> exists out, mapM f l = Ok out.
Proof.
  induction 1 as [|a l [b Hb] _ [bs Hbs]]; simpl.
  - now exists [].
  - rewrite Hb, Hbs. simpl. now exists (b :: bs).
Qed.

Lemma mapM_map (A B : Type) (f : A -> result B) (g : A -> B) (l : list A) :
  Forall (fun a => f a = Ok (g a)) l -> mapM f l = Ok (map g l).
Proof.
  induction 1 as [|a l Ha _ IH]; simpl; [reflexivity|].
  now rewrite Ha, IH.
Qed.

(** A loop whose failures are all the exception [e] ends in [e] as soon as
    one turn fails. *)
Lemma mapM_raise (A B : Type) (f : A -> result B) (e : exn) (l : list A) :
  Forall (fun a => (exists b, f a = Ok b) \/ f a = Raise e) l ->
  Exists (fun a => f a = Raise e) l ->
  mapM f l = Raise e.
Proof.
  induction 1 as [|a l Ha Hl IH]; intros Hex; [inversion Hex|].
  simpl. destruct Ha as [[b Hb]|Hr].
  - rewrite Hb. simpl. inversion Hex as [? ? H0|? ? H0]; subst; [congruence|].
    now rewrite (IH H0).
  - now rewrite Hr.
Qed.

Lemma Forall2_nth_error (A B : Type) (P : A -> B -> Prop) (l : list A)
    (l' : list B) (i : nat) (a : A) :
  Forall2 P l l' -> nth_error l i = Some a ->
  exists b, nth_error l' i = Some b /\ P a b.
Proof.
  intros H; revert i; induction H as [|x y l l' Hxy _ IH]; intros [|i] Hi;
    simpl in *; try discriminate.
  - injection Hi as <-. eauto.
  - eauto.
Qed.

(** ** Indexing *)

Lemma norm_index_in_range (n : nat) (i : Z) :
  (0 <= i < Z.of_nat n)%Z -> norm_index n i = Ok (Z.to_nat i).
Proof.
  intros [H0 Hn]. unfold norm_index.
  destruct (Z.ltb_spec i (- Z.of_nat n)); [lia|].
  destruct (Z.leb_spec (Z.of_nat n) i); [lia|]. simpl.
  destruct (Z.ltb_spec i 0); [lia|]. reflexivity.
Qed.

Lemma norm_index_out_of_range (n : nat) (i : Z) :
  (i < - Z.of_nat n \/ Z.of_nat n <= i)%Z -> norm_index n i = Raise IndexError.
Proof.
  intros H. unfold norm_index.
  destruct (Z.ltb_spec i (- Z.of_nat n)); [reflexivity|].
  destruct (Z.leb_spec (Z.of_nat n) i); [reflexivity|]. lia.
Qed.

Lemma getitem_in_range (A : Type) (t : list A) (i : Z) :
  (0 <= i < Z.of_nat (length t))%Z ->
  exists a, nth_error t (Z.to_nat i) = Some a /\ getitem t i = Ok a.
Proof.
  intros Hi. unfold getitem. rewrite (norm_index_in_range _ Hi). simpl.
  destruct (nth_error t (Z.to_nat i)) as [a|] eqn:Hnth; [eauto|].
  apply nth_error_None in Hnth. lia.
Qed.

Lemma getitem_out_of_range (A : Type) (t : list A) (i : Z) :
  (i < - Z.of_nat (length t) \/ Z.of_nat (length t) <= i)%Z ->
  getitem t i = Raise IndexError.
Proof.
  intros Hi. unfold getitem. now rewrite (norm_index_out_of_range _ Hi).
Qed.

(** [getitem] either returns or raises [IndexError]. *)
Lemma getitem_cases (A : Type) (t : list A) (i : Z) :
  (exists a, getitem t i = Ok a) \/ getitem t i = Raise IndexError.
Proof.
  unfold getitem. destruct (norm_index (length t) i) as [k|e] eqn:Hk; simpl.
  - destruct (nth_error t k); eauto.
  - right. unfold norm_index in Hk.
    destruct (_ || _)%bool; congruence.
Qed.

Lemma long_inject_Z (z : Z) : long (inject_Z z) = z.
Proof. unfold long, inject_Z. simpl. apply Z.quot_1_r. Qed.

Lemma long_bounds (c : Q) (n : nat) :
  (0 <= c)%Q -> (c < inject_Z (Z.of_nat n))%Q -> (0 <= long c < Z.of_nat n)%Z.
Proof.
  intros H0 Hn. unfold long.
  assert (Hnum : (0 <= Qnum c)%Z).
  { unfold Qle in H0. simpl in H0. lia. }
  rewrite Z.quot_div_nonneg by lia.
  replace (Qnum c / Z.pos (Qden c))%Z with (Qfloor c) by now destruct c.
  split.
  - change 0%Z with (Qfloor 0). now apply Qfloor_resp_le.
  - apply Z.le_lt_trans with (m := Qfloor c); [lia|].
    rewrite Zlt_Qlt. apply Qle_lt_trans with (y := c); [apply Qfloor_le|assumption].
Qed.

Lemma arange_length (n : nat) : length (arange n) = n.
Proof. unfold arange. now rewrite length_map, length_seq. Qed.

Lemma arange_nth_error (n i : nat) :
  (i < n)%nat -> nth_error (arange n) i = Some (Z.of_nat i).
Proof.
  intros Hi. unfold arange. rewrite nth_error_map, nth_error_seq.
  destruct (Nat.ltb_spec i n); [reflexivity|lia].
Qed.

Lemma nth_error_combine_Some (A B : Type) (l : list A) (l' : list B) (i : nat)
    (a : A) (b : B) :
  nth_error (combine l l') i = Some (a, b) <->
  nth_error l i = Some a /\ nth_error l' i = Some b.
Proof.
  revert l' i; induction l as [|x l IH]; intros [|y l'] [|i]; simpl;
    try (split; [discriminate|intros [? ?]; discriminate]).
  - split; [intros H; injection H as <- <-; auto|intros [H1 H2]; congruence].
  - apply IH.
Qed.

Lemma getitem_In (A : Type) (t : list A) (i : Z) (a : A) :
  getitem t i = Ok a -> In a t.
Proof.
  unfold getitem. destruct (norm_index (length t) i) as [k|e]; simpl;
    [|discriminate].
  destruct (nth_error t k) as [a'|] eqn:Hk; [|discriminate].
  intros H; injection H as <-. eapply nth_error_In; eassumption.
Qed.

(** ** [select_branch] *)

Section SelectBranch.

Variable A : Type.

(** The index pairs of a command vector as long as the batch. *)
Lemma select_branch_unfold (branches : list (list A)) (command : list Q) :
  length command = length branches ->
  select_branch branches command =
  mapM (fun ic : Z * Z => row <- getitem branches (fst ic) ;; getitem row (snd ic))
       (combine (arange (length branches)) (map long command)).
Proof.
  intros Hlen. unfold select_branch, broadcast_index.
  rewrite arange_length, length_map, Hlen, Nat.eqb_refl. reflexivity.
Qed.

Lemma index_pair_inv (branches : list (list A)) (zs : list Z) (i : nat) (z k : Z) :
  nth_error (combine (arange (length branches)) zs) i = Some (z, k) ->
  z = Z.of_nat i /\ nth_error zs i = Some k /\
  exists row, nth_error branches i = Some row /\ getitem branches z = Ok row.
Proof.
  intros H. apply nth_error_combine_Some in H as [Hz Hk].
  assert (Hi : (i < length branches)%nat).
  { rewrite <- (arange_length (length branches)).
    apply nth_error_Some. congruence. }
  rewrite (arange_nth_error Hi) in Hz. injection Hz as <-.
  repeat split; [assumption|].
  destruct (@getitem_in_range _ branches (Z.of_nat i)) as [row [Hrow Hget]];
    [lia|].
  rewrite Nat2Z.id in Hrow. eauto.
Qed.

End SelectBranch.

(** The gather of [select_branch] for commands in [0, N), in terms of the
    index that [long] computes. *)
Lemma select_branch_gather (A : Type) (B N D : nat)
    (branches : list (list (list A))) (command : list Q) :
  length branches = B ->
  Forall (fun row => length row = N /\ Forall (fun sl => length sl = D) row)
         branches ->
  length command = B ->
  Forall (fun c => 0 <= c /\ c < inject_Z (Z.of_nat N))%Q command ->
  exists selected,
    select_branch branches command = Ok selected /\
    length selected = B /\
    Forall (fun sl => length sl = D) selected /\
    forall i c, nth_error command i = Some c ->
      exists row sl,
        nth_error branches i = Some row /\
        nth_error row (Z.to_nat (long c)) = Some sl /\
        nth_error selected i = Some sl.
Proof.
  intros HB Hshape Hlen Hcmd.
  rewrite select_branch_unfold by congruence.
  set (f := fun ic : Z * Z => _).
  set (idx := combine _ _).
  assert (Hstep : forall i z k, nth_error idx i = Some (z, k) ->
            exists c row sl, nth_error command i = Some c /\ k = long c /\
              nth_error branches i = Some row /\
              nth_error row (Z.to_nat k) = Some sl /\ f (z, k) = Ok sl).
  { intros i z k Hi. subst idx.
    apply index_pair_inv in Hi as (-> & Hk & row & Hrow & Hget).
    rewrite nth_error_map in Hk.
    destruct (nth_error command i) as [c|] eqn:Hc; [|discriminate].
    injection Hk as <-.
    rewrite Forall_forall in Hcmd, Hshape.
    destruct (Hcmd c (nth_error_In _ _ Hc)) as [H0 HN].
    destruct (Hshape row (nth_error_In _ _ Hrow)) as [HrowN _].
    destruct (@getitem_in_range _ row (long c)) as [sl [Hsl Hgs]].
    { rewrite HrowN. now apply long_bounds. }
    exists c, row, sl. repeat split; try assumption.
    unfold f. simpl. now rewrite Hget. }
  destruct (@mapM_total _ _ f idx) as [selected Hsel].
  { apply Forall_forall. intros [z k] Hin.
    apply In_nth_error in Hin as [i Hi].
    destruct (Hstep i z k Hi) as (c & row & sl & _ & _ & _ & _ & Hf). eauto. }
  exists selected. split; [assumption|].
  pose proof (proj1 (mapM_Forall2 f idx selected) Hsel) as HF2.
  assert (Hidx : length idx = B).
  { subst idx. rewrite length_combine, arange_length, length_map. lia. }
  split; [|split].
  - rewrite <- (Forall2_length HF2). exact Hidx.
  - apply Forall_forall. intros sl Hin.
    apply In_nth_error in Hin as [i Hi].
    assert (Hlt : (i < length idx)%nat).
    { rewrite (Forall2_length HF2). apply nth_error_Some. congruence. }
    destruct (nth_error idx i) as [[z k]|] eqn:Hzk;
      [|apply nth_error_None in Hzk; lia].
    destruct (Forall2_nth_error i HF2 Hzk) as [sl' [Hsl' Hf]].
    destruct (Hstep i z k Hzk) as (c & row & sl2 & _ & _ & Hrow & Hnth & Hf2).
    assert (sl = sl2) by congruence. subst sl2.
    rewrite Forall_forall in Hshape.
    destruct (Hshape row (nth_error_In _ _ Hrow)) as [_ HD].
    rewrite Forall_forall in HD. apply HD. eapply nth_error_In; eassumption.
  - intros i c Hc.
    assert (Hlt : (i < length idx)%nat).
    { rewrite Hidx, <- Hlen. apply nth_error_Some. congruence. }
    destruct (nth_error idx i) as [[z k]|] eqn:Hzk;
      [|apply nth_error_None in Hzk; lia].
    destruct (Hstep i z k Hzk) as (c' & row & sl & Hc' & -> & Hrow & Hnth & Hf).
    assert (c' = c) by congruence. subst c'.
    destruct (Forall2_nth_error i HF2 Hzk) as [sl' [Hsl' Hf']].
    exists row, sl. repeat split; try assumption. congruence.
Qed.

(** The index that [long] computes for a non-negative command is its
    integer part: the integer k with k <= c < k + 1. *)
Lemma long_integer_part (c : Q) :
  (0 <= c)%Q ->
  (0 <= long c)%Z /\
  (inject_Z (long c) <= c)%Q /\ (c < inject_Z (long c) + 1)%Q.
Proof.
  intros H0. unfold long.
  assert (Hnum : (0 <= Qnum c)%Z).
  { unfold Qle in H0. simpl in H0. lia. }
  rewrite Z.quot_div_nonneg by lia.
  replace (Qnum c / Z.pos (Qden c))%Z with (Qfloor c) by now destruct c.
  split; [|split].
  - change 0%Z with (Qfloor 0). now apply Qfloor_resp_le.
  - apply Qfloor_le.
  - change 1%Q with (inject_Z 1). rewrite <- inject_Z_plus. apply Qlt_floor.
Qed.

(** C3.  For a branches tensor of shape (B, N, D) and a command vector of B
    entries that all lie in [0, N), [select_branch] returns a tensor of
    shape (B, D) whose i-th slice is [branches[i, k]], where k is the
    integer part of the command [c[i]]: the integer with k <= c[i] < k + 1.
    For an integer command the slice is [branches[i, c[i]]]. *)
Theorem select_branch_selects (A : Type) (B N D : nat)
    (branches : list (list (list A))) (command : list Q) :
  length branches = B ->
  Forall (fun row => length row = N /\ Forall (fun sl => length sl = D) row)
         branches ->
  length command = B ->
  Forall (fun c => 0 <= c /\ c < inject_Z (Z.of_nat N))%Q command ->
  exists selected,
    select_branch branches command = Ok selected /\
    length selected = B /\
    Forall (fun sl => length sl = D) selected /\
    (forall i c, nth_error command i = Some c ->
       exists k row sl,
         (inject_Z (Z.of_nat k) <= c)%Q /\
         (c < inject_Z (Z.of_nat k) + 1)%Q /\
         nth_error branches i = Some row /\
         nth_error row k = Some sl /\
         nth_error selected i = Some sl) /\
    (forall i j, nth_error command i = Some (inject_Z (Z.of_nat j)) ->
       exists row sl,
         nth_error branches i = Some row /\
         nth_error row j = Some sl /\
         nth_error selected i = Some sl).
Proof.
  intros HB Hshape Hlen Hcmd.
  destruct (select_branch_gather HB Hshape Hlen Hcmd)
    as (selected & Hsel & Hl & HD & Hval).
  exists selected. repeat (split; [assumption|]). split.
  - intros i c Hc.
    destruct (Hval i c Hc) as (row & sl & Hrow & Hsl & Hs).
    rewrite Forall_forall in Hcmd.
    destruct (Hcmd c (nth_error_In _ _ Hc)) as [H0 _].
    destruct (long_integer_part H0) as (Hk & Hlo & Hhi).
    exists (Z.to_nat (long c)), row, sl.
    rewrite Z2Nat.id by exact Hk. auto.
  - intros i j Hc.
    destruct (Hval i _ Hc) as (row & sl & Hrow & Hsl & Hs).
    rewrite long_inject_Z, Nat2Z.id in Hsl. eauto.
Qed.

Lemma select_branch_selects_witness :
  exists selected,
    select_branch [[[1; 2]; [3; 4]; [5; 6]]; [[7; 8]; [9; 10]; [11; 12]]]%Z
                  [2 # 1; 3 # 2]%Q = Ok selected /\
    length selected = 2%nat /\
    Forall (fun sl => length sl = 2%nat) selected /\
    (forall i c, nth_error [2 # 1; 3 # 2]%Q i = Some c ->
       exists k row sl,
         (inject_Z (Z.of_nat k) <= c)%Q /\
         (c < inject_Z (Z.of_nat k) + 1)%Q /\
         nth_error [[[1; 2]; [3; 4]; [5; 6]]; [[7; 8]; [9; 10]; [11; 12]]]%Z i
           = Some row /\
         nth_error row k = Some sl /\
         nth_error selected i = Some sl) /\
    (forall i j, nth_error [2 # 1; 3 # 2]%Q i = Some (inject_Z (Z.of_nat j)) ->
       exists row sl,
         nth_error [[[1; 2]; [3; 4]; [5; 6]]; [[7; 8]; [9; 10]; [11; 12]]]%Z i
           = Some row /\
         nth_error row j = Some sl /\
         nth_error selected i = Some sl).
Proof.
  apply (@select_branch_selects Z 2 3 2).
  - reflexivity.
  - repeat constructor.
  - reflexivity.
  - repeat constructor; unfold Qle, Qlt; simpl; lia.
Defined.

(** The concrete selection: sample 0 takes branch 2, sample 1 takes branch
    [long 1.5 = 1]. *)
Example select_branch_example :
  select_branch [[[1; 2]; [3; 4]; [5; 6]]; [[7; 8]; [9; 10]; [11; 12]]]%Z
                [2 # 1; 3 # 2]%Q = Ok [[5; 6]; [9; 10]]%Z.
Proof. reflexivity. Qed.

(** A command of -1 lies outside [0, 3) and still selects a branch, the
    last one: negative indices count from the end. *)
Lemma select_branch_negative_command :
  ~ (0 <= -1 < 3)%Z /\
  select_branch [[10; 20; 30]]%Z [inject_Z (-1)] = Ok [30]%Z.
Proof. split; [lia|reflexivity]. Qed.

(** C2, amended.  For a branches tensor of shape (B, N, ...) and an integer
    command vector of length B, a command value outside [-N, N) makes
    [select_branch] raise [IndexError] instead of returning. *)
Theorem select_branch_out_of_range (A : Type) (B N : nat)
    (branches : list (list A)) (command : list Z) :
  length branches = B ->
  Forall (fun row => length row = N) branches ->
  length command = B ->
  Exists (fun c => c < - Z.of_nat N \/ Z.of_nat N <= c)%Z command ->
  select_branch branches (map inject_Z command) = Raise IndexError.
Proof.
  intros HB Hshape Hlen Hbad.
  rewrite select_branch_unfold by (rewrite length_map; congruence).
  rewrite map_map, (map_ext _ (fun z => z) long_inject_Z), map_id.
  apply mapM_raise.
  - apply Forall_forall. intros [z k] _. simpl.
    destruct (getitem_cases branches z) as [[row Hrow]|Hr].
    + rewrite Hrow. simpl. apply getitem_cases.
    + rewrite Hr. now right.
  - apply Exists_exists in Hbad as [c [Hin Hc]].
    apply In_nth_error in Hin as [i Hi].
    assert (Hlt : (i < length branches)%nat).
    { rewrite HB, <- Hlen. apply nth_error_Some. congruence. }
    apply Exists_exists. exists (Z.of_nat i, c). split.
    + apply nth_error_In with (n := i). apply nth_error_combine_Some.
      split; [now apply arange_nth_error|assumption].
    + simpl.
      destruct (@getitem_in_range _ branches (Z.of_nat i)) as [row [Hrow Hget]];
        [lia|].
      rewrite Hget. simpl. apply getitem_out_of_range.
      rewrite Forall_forall in Hshape.
      rewrite (Hshape row (nth_error_In _ _ Hrow)). exact Hc.
Qed.

Lemma select_branch_out_of_range_witness :
  select_branch [[10; 20; 30]; [40; 50; 60]]%Z (map inject_Z [1; 3]%Z)
  = Raise IndexError.
Proof.
  apply (@select_branch_out_of_range Z 2 3).
  - reflexivity.
  - repeat constructor.
  - reflexivity.
  - apply Exists_cons_tl, Exists_cons_hd. right. simpl. lia.
Defined.

(** The values in [-N, 0) are the ones that the amended range adds: each
    selects the branch [N + c]. *)
Lemma select_branch_wraps (A : Type) (N : nat) (row : list A) (c : Z) :
  length row = N -> (- Z.of_nat N <= c < 0)%Z ->
  exists sl, nth_error row (Z.to_nat (Z.of_nat N + c)) = Some sl /\
             select_branch [row] [inject_Z c] = Ok [sl].
Proof.
  intros HN Hc. unfold select_branch, broadcast_index. simpl.
  rewrite long_inject_Z.
  unfold getitem, norm_index. simpl. rewrite HN.
  destruct (Z.ltb_spec c (- Z.of_nat N)); [lia|].
  destruct (Z.leb_spec (Z.of_nat N) c); [lia|].
  destruct (Z.ltb_spec c 0); [|lia].
  replace (c + Z.of_nat N)%Z with (Z.of_nat N + c)%Z by lia. simpl.
  destruct (nth_error row (Z.to_nat (Z.of_nat N + c))) as [sl|] eqn:Hsl.
  - exists sl. simpl. auto.
  - apply nth_error_None in Hsl. lia.
Qed.

(** ** Broadcasting against per-channel statistics *)

Local Open Scope R_scope.

Lemma mapM_pure (A B : Type) (g : A -> B) (l : list A) :
  mapM (fun a => Ok (g a)) l = Ok (map g l).
Proof. apply mapM_map, Forall_forall. reflexivity. Qed.

Lemma bzip_single_r (A B C : Type) (f : A -> B -> result C) (xs : list A) (y : B) :
  bzip f xs [y] = mapM (fun x => f x y) xs.
Proof.
  unfold bzip. destruct xs as [|x [|x' xs]]; reflexivity.
Qed.

Lemma broadcast_dim_1_r (a : nat) : broadcast_dim a 1 = Ok a.
Proof.
  unfold broadcast_dim. destruct (Nat.eqb_spec a 1); [reflexivity|].
  reflexivity.
Qed.

Lemma bzip_channel (op : R -> R -> R) (ch : list (list R)) (m : R) :
  bzip (bzip (fun a b => Ok (op a b))) ch [[m]]
  = Ok (map (map (fun a => op a m)) ch).
Proof.
  rewrite bzip_single_r. apply mapM_map, Forall_forall. intros row _.
  rewrite bzip_single_r. apply mapM_pure.
Qed.

Lemma bzip_sample (op : R -> R -> R) (s : list (list (list R))) (v : list R) :
  length s = 3%nat -> length v = 3%nat ->
  bzip (bzip (bzip (fun a b => Ok (op a b)))) s (map (fun m => [[m]]) v)
  = Ok (map (fun cm => map (map (fun a => op a (snd cm))) (fst cm))
            (combine s v)).
Proof.
  intros Hs Hv.
  destruct s as [|c0 [|c1 [|c2 [|? ?]]]]; try discriminate.
  destruct v as [|m0 [|m1 [|m2 [|? ?]]]]; try discriminate.
  unfold bzip at 1. simpl. now rewrite !bzip_channel.
Qed.

Lemma binop4_stats (op : R -> R -> R) (x : tensor4) (v : list R) (N H W : nat) :
  shape4 x = (N, 3, H, W)%nat ->
  Forall (fun s => length s = 3%nat) (data4 x) ->
  length v = 3%nat ->
  binop4 op x (Tensor4 (1, 3, 1, 1)%nat [map (fun m => [[m]]) v])
  = Ok (Tensor4 (N, 3, H, W)%nat (channelwise op v (data4 x))).
Proof.
  intros Hshape Hch Hv. unfold binop4. rewrite Hshape. simpl.
  rewrite !broadcast_dim_1_r. simpl.
  rewrite bzip_single_r.
  rewrite (@mapM_map _ _ _
    (fun s => map (fun cm => map (map (fun a => op a (snd cm))) (fst cm))
                  (combine s v))).
  - reflexivity.
  - apply Forall_forall. intros s Hs.
    rewrite Forall_forall in Hch. now apply bzip_sample; [apply Hch|].
Qed.

Lemma channelwise_channels (op : R -> R -> R) (v : list R)
    (d : list (list (list (list R)))) :
  length v = 3%nat ->
  Forall (fun s => length s = 3%nat) d ->
  Forall (fun s => length s = 3%nat) (channelwise op v d).
Proof.
  intros Hv Hd. unfold channelwise. apply Forall_map.
  apply Forall_impl with (2 := Hd). intros s Hs.
  rewrite length_map, length_combine. lia.
Qed.

Lemma wf4_channels (x : tensor4) (N C H W : nat) :
  shape4 x = (N, C, H, W) -> wf4 x ->
  Forall (fun s => length s = C) (data4 x).
Proof.
  unfold wf4. intros ->. intros [_ HF].
  apply Forall_impl with (2 := HF). now intros s [Hs _].
Qed.

Lemma channelwise_sub_div (mean std : list R) (d : list (list (list (list R)))) :
  length mean = 3%nat -> length std = 3%nat ->
  Forall (fun s => length s = 3%nat) d ->
  channelwise Rdiv std (channelwise Rminus mean d) = normalized mean std d.
Proof.
  intros Hm Hs Hd. unfold channelwise, normalized. rewrite map_map.
  apply map_ext_in. intros s Hin. rewrite Forall_forall in Hd.
  specialize (Hd s Hin).
  destruct s as [|c0 [|c1 [|c2 [|? ?]]]]; try discriminate.
  destruct mean as [|m0 [|m1 [|m2 [|? ?]]]]; try discriminate.
  destruct std as [|s0 [|s1 [|s2 [|? ?]]]]; try discriminate.
  simpl. now rewrite !map_map; repeat (f_equal; try (apply map_ext; intros; now rewrite map_map)).
Qed.

Lemma denormalized_normalized (mean std : list R)
    (d : list (list (list (list R)))) :
  length mean = 3%nat -> length std = 3%nat ->
  Forall (fun s => length s = 3%nat) d ->
  Forall (fun s => s <> 0) std ->
  channelwise Rplus mean (channelwise Rmult std (normalized mean std d)) = d.
Proof.
  intros Hm Hs Hd Hnz. unfold channelwise, normalized. rewrite !map_map.
  rewrite <- (map_id d) at 2. apply map_ext_in. intros s Hin.
  rewrite Forall_forall in Hd. specialize (Hd s Hin).
  destruct s as [|c0 [|c1 [|c2 [|? ?]]]]; try discriminate.
  destruct mean as [|m0 [|m1 [|m2 [|? ?]]]]; try discriminate.
  destruct std as [|s0 [|s1 [|s2 [|? ?]]]]; try discriminate.
  inversion Hnz as [|? ? H0 Hnz1]; subst.
  inversion Hnz1 as [|? ? H1 Hnz2]; subst.
  inversion Hnz2 as [|? ? H2 _]; subst.
  assert (Hchan : forall (m sd : R) (ch : list (list R)), sd <> 0 ->
            map (map (fun a => a + m))
              (map (map (fun a => a * sd))
                 (map (map (fun a => (a - m) / sd)) ch)) = ch).
  { intros m sd ch Hsd. rewrite !map_map. rewrite <- (map_id ch) at 2.
    apply map_ext. intros row. rewrite !map_map.
    rewrite <- (map_id row) at 2. apply map_ext. intros a. now field. }
  simpl. now rewrite !Hchan.
Qed.

Lemma stats_tensor_inv (v : list R) (p : placed) :
  stats_tensor v = Ok p ->
  length v = 3%nat /\
  p = Placed cpu (Tensor4 (1, 3, 1, 1)%nat [map (fun m => [[m]]) v]).
Proof.
  unfold stats_tensor. destruct (Nat.eqb_spec (length v) 3); [|discriminate].
  intros H; injection H as <-. auto.
Qed.

Lemma Device_eqb_refl (d : Device) : Device_eqb d d = true.
Proof. destruct d; simpl; [reflexivity|apply Nat.eqb_refl]. Qed.

Lemma pbinop_stats (op : R -> R -> R) (d : Device) (x : tensor4) (v : list R)
    (N H W : nat) :
  shape4 x = (N, 3, H, W)%nat ->
  Forall (fun s => length s = 3%nat) (data4 x) ->
  length v = 3%nat ->
  pbinop op (Placed d x)
    (to d (Placed cpu (Tensor4 (1, 3, 1, 1)%nat [map (fun m => [[m]]) v])))
  = Ok (Placed d (Tensor4 (N, 3, H, W)%nat (channelwise op v (data4 x)))).
Proof.
  intros Hshape Hch Hv. unfold pbinop, to. simpl. rewrite Device_eqb_refl.
  now rewrite (@binop4_stats op x v N H W Hshape Hch Hv).
Qed.

(** ** [Normalize] and [NormalizeV2] *)

(** With a zero entry in [std] the round trip does not give the input
    back: the product by [std] is 0 whatever the quotient was. *)
Lemma normalize_zero_std_roundtrip_fails :
  let x := Placed cpu (Tensor4 (1, 3, 1, 1)%nat [[[[1]]; [[1]]; [[1]]]]) in
  exists self y,
    Normalize.init [0; 0; 0] [0; 1; 1] = Ok self /\
    Normalize.forward self x = Ok y /\
    denormalize (Normalize.mean self) (Normalize.std self) y <> Ok x.
Proof.
  intros x. eexists. eexists. split; [reflexivity|]. split; [reflexivity|].
  intros H. injection H as H. lra.
Qed.

(** C5, amended.  For an input batch with three channels, [Normalize.forward]
    returns [(input - mean) / std] entry by entry, each channel using its own
    pair of statistics over the whole height and width; when no entry of
    [std] is zero, multiplying the output by [std] and adding [mean] gives
    the input back. *)
Theorem normalize_forward_spec (mean std : list R) (self : Normalize.t)
    (x : placed) (N H W : nat) :
  Normalize.init mean std = Ok self ->
  shape4 (value x) = (N, 3, H, W)%nat ->
  wf4 (value x) ->
  let m := Normalize.module_to (device x) self in
  let y := Placed (device x)
             (Tensor4 (N, 3, H, W)%nat (normalized mean std (data4 (value x)))) in
  Normalize.forward m x = Ok y /\
  (Forall (fun s => s <> 0) std ->
   denormalize (Normalize.mean m) (Normalize.std m) y = Ok x).
Proof.
  intros Hinit Hshape Hwf m y. subst m y.
  unfold Normalize.init in Hinit.
  destruct (stats_tensor mean) as [pm|] eqn:Hpm; [|discriminate].
  destruct (stats_tensor std) as [ps|] eqn:Hps; [|discriminate].
  simpl in Hinit. injection Hinit as <-.
  apply stats_tensor_inv in Hpm as [Hm ->], Hps as [Hs ->].
  pose proof (@wf4_channels _ N 3 H W Hshape Hwf) as Hch.
  destruct x as [d [sh dat]]. simpl in *. subst sh.
  unfold Normalize.forward, Normalize.module_to, denormalize, sub, div, mul, add.
  simpl.
  rewrite (@pbinop_stats Rminus d (Tensor4 (N, 3, H, W)%nat dat) mean N H W eq_refl Hch Hm).
  simpl.
  rewrite (@pbinop_stats Rdiv d (Tensor4 (N, 3, H, W)%nat (channelwise Rminus mean dat)) std
             N H W eq_refl (@channelwise_channels Rminus mean dat Hm Hch) Hs).
  simpl. rewrite (@channelwise_sub_div mean std dat Hm Hs Hch).
  split; [reflexivity|]. intros Hnz.
  assert (Hn : Forall (fun s => length s = 3%nat) (normalized mean std dat)).
  { rewrite <- (@channelwise_sub_div mean std dat Hm Hs Hch).
    now repeat apply channelwise_channels. }
  rewrite (@pbinop_stats Rmult d (Tensor4 (N, 3, H, W)%nat (normalized mean std dat)) std
             N H W eq_refl Hn Hs).
  simpl.
  rewrite (@pbinop_stats Rplus d
             (Tensor4 (N, 3, H, W)%nat (channelwise Rmult std (normalized mean std dat)))
             mean N H W eq_refl
             (@channelwise_channels Rmult std _ Hs Hn) Hm).
  simpl.
  now rewrite (@denormalized_normalized mean std dat Hm Hs Hch Hnz).
Qed.

Lemma normalize_forward_spec_witness :
  let x := Placed cpu (Tensor4 (1, 3, 1, 2)%nat [[[[1; 2]]; [[3; 4]]; [[5; 6]]]]) in
  let y := Placed cpu (Tensor4 (1, 3, 1, 2)%nat
             (normalized [1; 1; 1] [2; 2; 2] [[[[1; 2]]; [[3; 4]]; [[5; 6]]]])) in
  exists self,
    Normalize.init [1; 1; 1] [2; 2; 2] = Ok self /\
    Normalize.forward (Normalize.module_to cpu self) x = Ok y /\
    denormalize (Normalize.mean (Normalize.module_to cpu self))
                (Normalize.std (Normalize.module_to cpu self)) y = Ok x.
Proof.
intros x y. eexists. split; [reflexivity|].
assert (Hwf : wf4 (value x)) by (unfold wf4, x; simpl; repeat constructor).
destruct (@normalize_forward_spec [1; 1; 1] [2; 2; 2] _ x 1 1 2
            eq_refl eq_refl Hwf) as [Hf Hr].
split; [exact Hf|]. apply Hr. repeat constructor; lra.
Defined.

(** An input held by another device than [Normalize]'s parameters is
    refused by [Normalize] and accepted by [NormalizeV2]. *)
Lemma normalize_variants_differ_on_device :
  let x := Placed (cuda 0) (Tensor4 (1, 3, 1, 1)%nat [[[[1]]; [[1]]; [[1]]]]) in
  exists n v y,
    Normalize.init [0; 0; 0] [1; 1; 1] = Ok n /\
    NormalizeV2.init [0; 0; 0] [1; 1; 1] = Ok v /\
    Normalize.forward n x = Raise RuntimeError /\
    NormalizeV2.forward v x = Ok y.
Proof.
  intros x. do 3 eexists.
  split; [reflexivity|]. split; [reflexivity|]. split; reflexivity.
Qed.

Lemma Device_eqb_neq (d e : Device) : d <> e -> Device_eqb d e = false.
Proof.
  intros Hne. destruct d as [|i0], e as [|j0]; simpl; try reflexivity.
  - now contradiction Hne.
  - apply Nat.eqb_neq. intros Heq. apply Hne. now rewrite Heq.
Qed.

(** C6, amended.  [Normalize] and [NormalizeV2] built from the same mean
    and std agree on every input once [Normalize] has been moved to the
    device of the input, and on every CPU input as built.  They differ in
    device handling: [Normalize] raises [RuntimeError] on every input held
    by another device than its parameters, whereas [NormalizeV2] returns
    [(input - mean) / std] for a three-channel input on any device.  They
    differ in what they save: [Normalize] saves both statistics,
    [NormalizeV2] nothing. *)
Theorem normalize_variants_agree (mean std : list R) (n : Normalize.t)
    (v : NormalizeV2.t) (x : placed) :
  Normalize.init mean std = Ok n ->
  NormalizeV2.init mean std = Ok v ->
  Normalize.forward (Normalize.module_to (device x) n) x
    = NormalizeV2.forward (NormalizeV2.module_to (device x) v) x /\
  (device x = cpu -> Normalize.forward n x = NormalizeV2.forward v x) /\
  (forall d, d <> device x ->
     Normalize.forward (Normalize.module_to d n) x = Raise RuntimeError) /\
  (device x <> cpu -> Normalize.forward n x = Raise RuntimeError) /\
  (forall N H W, shape4 (value x) = (N, 3, H, W)%nat -> wf4 (value x) ->
     forall d,
       NormalizeV2.forward (NormalizeV2.module_to d v) x
       = Ok (Placed (device x)
               (Tensor4 (N, 3, H, W)%nat
                  (normalized mean std (data4 (value x)))))) /\
  Normalize.state_dict n
    = [(key_mean, value (NormalizeV2.mean v));
       (key_std, value (NormalizeV2.std v))] /\
  NormalizeV2.state_dict v = [].
Proof.
  intros Hn Hv. unfold Normalize.init in Hn. unfold NormalizeV2.init in Hv.
  destruct (stats_tensor mean) as [pm|] eqn:Hpm; [|discriminate].
  destruct (stats_tensor std) as [ps|] eqn:Hps; [|discriminate].
  simpl in Hn, Hv. injection Hn as <-. injection Hv as <-.
  apply stats_tensor_inv in Hpm as [Hm ->], Hps as [Hs ->].
  assert (Hmis : forall d, d <> device x ->
            Normalize.forward
              (Normalize.module_to d
                 (Normalize.Make
                    (Placed cpu (Tensor4 (1, 3, 1, 1)%nat
                                   [map (fun m => [[m]]) mean]))
                    (Placed cpu (Tensor4 (1, 3, 1, 1)%nat
                                   [map (fun m => [[m]]) std])))) x
            = Raise RuntimeError).
  { intros d Hd. unfold Normalize.forward, Normalize.module_to, sub, pbinop.
    simpl. rewrite Device_eqb_neq by congruence. reflexivity. }
  split; [reflexivity|]. split.
  { intros Hx. unfold Normalize.forward, NormalizeV2.forward, to. simpl.
    now rewrite Hx. }
  split; [exact Hmis|]. split.
  { intros Hx. specialize (Hmis cpu (fun H => Hx (eq_sym H))).
    exact Hmis. }
  split; [|split; reflexivity].
  intros N H W Hshape Hwf d.
  pose proof (@wf4_channels _ N 3 H W Hshape Hwf) as Hch.
  destruct x as [dx [sh dat]]. simpl in *. subst sh.
  unfold NormalizeV2.forward, NormalizeV2.module_to, sub, div. simpl.
  rewrite (@pbinop_stats Rminus dx (Tensor4 (N, 3, H, W)%nat dat) mean N H W
             eq_refl Hch Hm).
  simpl.
  rewrite (@pbinop_stats Rdiv dx
             (Tensor4 (N, 3, H, W)%nat (channelwise Rminus mean dat)) std
             N H W eq_refl (@channelwise_channels Rminus mean dat Hm Hch) Hs).
  simpl. now rewrite (@channelwise_sub_div mean std dat Hm Hs Hch).
Qed.

Lemma normalize_variants_agree_witness :
  let x := Placed (cuda 0) (Tensor4 (1, 3, 1, 1)%nat [[[[1]]; [[1]]; [[1]]]]) in
  exists n v,
    Normalize.init [0; 0; 0] [1; 1; 1] = Ok n /\
    NormalizeV2.init [0; 0; 0] [1; 1; 1] = Ok v /\
    Normalize.forward (Normalize.module_to (cuda 0) n) x
    = NormalizeV2.forward (NormalizeV2.module_to (cuda 0) v) x /\
    Normalize.forward n x = Raise RuntimeError /\
    NormalizeV2.forward v x
    = Ok (Placed (cuda 0)
            (Tensor4 (1, 3, 1, 1)%nat
               (normalized [0; 0; 0] [1; 1; 1] [[[[1]]; [[1]]; [[1]]]]))).
Proof.
  intros x. do 2 eexists. split; [reflexivity|]. split; [reflexivity|].
  destruct (@normalize_variants_agree [0; 0; 0] [1; 1; 1] _ _ x
              eq_refl eq_refl) as (Hagree & _ & _ & Hraise & Hv2 & _).
  split; [exact Hagree|]. split.
  - apply Hraise. discriminate.
  - refine (Hv2 1%nat 1%nat 1%nat eq_refl _ cpu).
    unfold wf4, x. simpl. repeat constructor.
Defined.

(** ** The soft-argmax *)

Lemma expected_dot (pos weight : list R) :
  length pos = length weight -> expected pos weight = Ok (dot pos weight).
Proof.
  intros Hlen. unfold expected, bzip. rewrite Hlen, Nat.eqb_refl.
  rewrite (mapM_pure (fun p : R * R => fst p * snd p)). reflexivity.
Qed.

Lemma softmax_length (z : list R) : length (softmax z) = length z.
Proof. unfold softmax. now rewrite !length_map. Qed.

Lemma dot_scale (pos e : list R) (c : R) :
  dot pos (map (fun v => v * c) e) = dot pos e * c.
Proof.
  unfold dot. revert e; induction pos as [|p pos IH]; intros [|v e]; simpl;
    try lra.
  rewrite IH. lra.
Qed.

Lemma dot_softmax (pos z : list R) :
  dot pos (softmax z) = dot pos (map exp z) / sum (map exp z).
Proof.
  unfold softmax. unfold Rdiv at 2. rewrite <- dot_scale. reflexivity.
Qed.

Lemma dot_shift (pos e : list R) (pk : R) :
  length pos = length e ->
  dot pos e - pk * sum e = dot (map (fun p => p - pk) pos) e.
Proof.
  unfold dot. revert e; induction pos as [|p pos IH]; intros [|v e] Hlen;
    simpl in *; try discriminate; try lra.
  injection Hlen as Hlen. rewrite <- (IH e Hlen). lra.
Qed.

Section SoftArgmaxLimit.

Variables T g pk rk : R.
Hypothesis HT : 0 < T.
Hypothesis Hg : 0 < g.

Let E (row : list R) : list R := map (fun r => exp (r / T)) row.

Lemma sum_E_nonneg (row : list R) : 0 <= sum (E row).
Proof.
  induction row as [|r row IH]; simpl; [lra|].
  pose proof (exp_pos (r / T)). lra.
Qed.

Lemma sum_E_lower (row : list R) :
  In rk row -> exp (rk / T) <= sum (E row).
Proof.
  induction row as [|r row IH]; simpl; [contradiction|].
  intros [->|Hin].
  - pose proof (sum_E_nonneg row). lra.
  - specialize (IH Hin). pose proof (exp_pos (r / T)). lra.
Qed.

Lemma exp_div_le (r : R) : r + g <= rk -> exp (r / T) <= exp ((rk - g) / T).
Proof.
  intros Hr.
  assert (Hle : r / T <= (rk - g) / T).
  { unfold Rdiv. apply Rmult_le_compat_r; [|lra].
    apply Rlt_le, Rinv_0_lt_compat, HT. }
  destruct Hle as [Hlt|Heq]; [|rewrite Heq; lra].
  apply Rlt_le, exp_increasing, Hlt.
Qed.

(** Away from the peak every weight is at most [exp ((rk - g) / T)]. *)
Lemma dot_off_peak (pos row : list R) :
  Forall2 (fun p r => p = pk \/ r + g <= rk) pos row ->
  Rabs (dot (map (fun p => p - pk) pos) (E row))
  <= sum (map (fun p => Rabs (p - pk)) pos) * exp ((rk - g) / T).
Proof.
  induction 1 as [|p r pos row Hpr _ IH]; unfold dot in *; simpl.
  - rewrite Rabs_R0. lra.
  - eapply Rle_trans; [apply Rabs_triang|].
    rewrite Rabs_mult, (Rabs_pos_eq (exp (r / T)))
      by apply Rlt_le, exp_pos.
    assert (Hterm : Rabs (p - pk) * exp (r / T)
                    <= Rabs (p - pk) * exp ((rk - g) / T)).
    { destruct Hpr as [->|Hr].
      - replace (pk - pk) with 0 by lra. rewrite Rabs_R0. lra.
      - apply Rmult_le_compat_l; [apply Rabs_pos|now apply exp_div_le]. }
    lra.
Qed.

Lemma exp_gap_small : exp ((rk - g) / T) <= exp (rk / T) * (T / g).
Proof.
  replace ((rk - g) / T) with (rk / T + - (g / T)) by (field; lra).
  rewrite exp_plus, exp_Ropp.
  apply Rmult_le_compat_l; [apply Rlt_le, exp_pos|].
  assert (Hx : 0 < g / T) by now apply Rdiv_lt_0_compat.
  pose proof (exp_ineq1 (g / T) ltac:(lra)) as Hexp.
  replace (T / g) with (/ (g / T)) by (field; lra).
  apply Rlt_le, Rinv_lt_contravar; [|lra].
  apply Rmult_lt_0_compat; lra.
Qed.

(** The distance of the soft-argmax to the coordinate of the peak is
    linear in the temperature. *)
Lemma soft_argmax_bound (pos row : list R) :
  Forall2 (fun p r => p = pk \/ r + g <= rk) pos row ->
  In rk row ->
  Rabs (soft_argmax pos T row - pk)
  <= sum (map (fun p => Rabs (p - pk)) pos) * (T / g).
Proof.
  intros HF Hin. unfold soft_argmax.
  rewrite dot_softmax, map_map. fold (E row).
  pose proof (sum_E_lower row Hin) as Hlow.
  pose proof (exp_pos (rk / T)) as Hpos.
  set (S := sum (E row)) in *.
  set (M := sum (map (fun p => Rabs (p - pk)) pos)).
  assert (HM : 0 <= M).
  { subst M. clear. induction pos as [|p pos IH]; simpl; [lra|].
    pose proof (Rabs_pos (p - pk)). lra. }
  replace (dot pos (E row) / S - pk)
    with ((dot pos (E row) - pk * S) / S) by (field; lra).
  subst S. rewrite dot_shift
    by (unfold E; rewrite length_map; exact (Forall2_length HF)).
  set (S := sum (E row)) in *.
  unfold Rdiv at 1. rewrite Rabs_mult, (Rabs_pos_eq (/ S))
    by (apply Rlt_le, Rinv_0_lt_compat; lra).
  pose proof (dot_off_peak HF) as Hoff. fold M in Hoff.
  pose proof exp_gap_small as Hgap.
  assert (HTg : 0 < T / g) by now apply Rdiv_lt_0_compat.
  assert (Hnum : Rabs (dot (map (fun p => p - pk) pos) (E row))
                 <= M * (T / g) * S).
  { eapply Rle_trans; [exact Hoff|].
    rewrite Rmult_assoc. apply Rmult_le_compat_l; [exact HM|].
    eapply Rle_trans; [exact Hgap|]. rewrite (Rmult_comm (T / g)).
    apply Rmult_le_compat_r; lra. }
  apply Rmult_le_reg_r with (r := S); [lra|].
  rewrite Rmult_assoc, Rinv_l by lra. lra.
Qed.

End SoftArgmaxLimit.

(** ** The temperature argument *)

Lemma truthy_zero : truthy (Some 0) = false.
Proof.
unfold truthy. destruct (Req_dec_T 0 0) as [_|Hne]; [reflexivity|].
now contradiction Hne.
Qed.

Lemma truthy_nonzero (t : R) : t <> 0 -> truthy (Some t) = true.
Proof.
intros Ht. unfold truthy. destruct (Req_dec_T t 0) as [Heq|_]; [|reflexivity].
now contradiction Ht.
Qed.

(** C9.  A temperature argument of 0 builds the same module as no
    temperature argument: the temperature is the fixed number 1, which is
    what the softmax divides by; an argument other than 0 becomes a trainable
    parameter of that value. *)
Theorem falsy_temperature_is_one (height width channel : nat)
    (format : data_format) (x_range y_range : R * R) :
  let s0 := SpatialSoftmax.init height width channel (Some 0) format in
  let sN := SpatialSoftmax.init height width channel None format in
  let v0 := SpatialSoftmaxV2.init height width channel (Some 0) format
              x_range y_range in
  let vN := SpatialSoftmaxV2.init height width channel None format
              x_range y_range in
  s0 = sN /\ v0 = vN /\
  SpatialSoftmax.temp s0 = Fixed 1 /\
  SpatialSoftmaxV2.temp v0 = Fixed 1 /\
  temperature_value (SpatialSoftmax.temp s0) = 1 /\
  temperature_value (SpatialSoftmaxV2.temp v0) = 1 /\
  (forall feature,
     SpatialSoftmax.forward s0 feature = SpatialSoftmax.forward sN feature /\
     SpatialSoftmaxV2.forward v0 feature = SpatialSoftmaxV2.forward vN feature) /\
  (forall t, t <> 0 ->
     SpatialSoftmax.temp
       (SpatialSoftmax.init height width channel (Some t) format)
     = Trainable (1 * t) /\
     SpatialSoftmaxV2.temp
       (SpatialSoftmaxV2.init height width channel (Some t) format
          x_range y_range)
     = Trainable (1 * t)).
Proof.
intros s0 sN v0 vN.
assert (Hs : s0 = sN).
{ subst s0 sN. unfold SpatialSoftmax.init, init_temperature.
  now rewrite truthy_zero. }
assert (Hv : v0 = vN).
{ subst v0 vN. unfold SpatialSoftmaxV2.init, init_temperature.
  now rewrite truthy_zero. }
split; [exact Hs|]. split; [exact Hv|].
rewrite Hs, Hv. do 4 (split; [reflexivity|]). split.
- intros feature. split; reflexivity.
- intros t Ht. unfold SpatialSoftmax.init, SpatialSoftmaxV2.init,
    init_temperature.
  rewrite (truthy_nonzero Ht). split; reflexivity.
Qed.

Lemma falsy_temperature_is_one_witness :
  SpatialSoftmax.temp (SpatialSoftmax.init 2 2 1 (Some 5) NCHW)
  = Trainable (1 * 5) /\
  SpatialSoftmaxV2.temp
    (SpatialSoftmaxV2.init 2 2 1 (Some 5) NCHW (0, 20) (-1, 1))
  = Trainable (1 * 5).
Proof.
refine (proj2 (proj2 (proj2 (proj2 (proj2 (proj2 (proj2
  (falsy_temperature_is_one 2 2 1 NCHW (0, 20) (-1, 1)))))))) 5 _).
lra.
Defined.

(** ** The physical range of [SpatialSoftmaxV2] *)

Lemma mapM_ext (A B : Type) (f f' : A -> result B) (l : list A) :
  (forall a, f a = f' a) -> mapM f l = mapM f' l.
Proof.
intros Hext. induction l as [|a l IH]; simpl; [reflexivity|].
now rewrite Hext, IH.
Qed.

Lemma mapM_fmap (A B C : Type) (f : A -> result B) (g : B -> C) (l : list A) :
  mapM (fun a => b <- f a ;; Ok (g b)) l = bs <- mapM f l ;; Ok (map g bs).
Proof.
induction l as [|a l IH]; simpl; [reflexivity|].
destruct (f a) as [b|e]; simpl; [|reflexivity].
rewrite IH. destruct (mapM f l); reflexivity.
Qed.

(** C4.  Whenever [SpatialSoftmaxV2.forward] accepts a feature map, its
    output is, axis by axis, the image under [value_m] of the expected
    normalized coordinate, which is the output of [SpatialSoftmax.forward]
    on the same grid and temperature; [value_m] sends -1 to the minimum of
    the range and +1 to its maximum, for instance 0 and 20 for the range
    (0, 20). *)
Theorem spatial_softmax_v2_affine (height width channel : nat)
    (temperature : option R) (format : data_format) (x_range y_range : R * R)
    (feature : tensor4) (out : list (list (R * R))) :
  SpatialSoftmaxV2.forward
    (SpatialSoftmaxV2.init height width channel temperature format
       x_range y_range) feature = Ok out ->
  (exists normalized,
     SpatialSoftmax.forward
       (SpatialSoftmax.init height width channel temperature format) feature
     = Ok normalized /\
     out = map (map (fun xy => (value_m x_range (fst xy),
                                value_m y_range (snd xy)))) normalized) /\
  value_m x_range (-1) = fst x_range /\ value_m x_range 1 = snd x_range /\
  value_m y_range (-1) = fst y_range /\ value_m y_range 1 = snd y_range /\
  value_m (0, 20) (-1) = 0 /\ value_m (0, 20) 1 = 20.
Proof.
intros Hout. split.
- unfold SpatialSoftmaxV2.forward, SpatialSoftmaxV2.init in Hout.
  unfold SpatialSoftmax.forward, SpatialSoftmax.init.
  simpl in *.
  set (f := match format with NHWC => permute_0312 feature | NCHW => feature end)
    in *.
  destruct (shape4 f) as [[[n c] H] W].
  destruct (Nat.eqb H height && Nat.eqb W width); [|discriminate].
  destruct x_range as [x_min x_max], y_range as [y_min y_max].
  set (g := fun xy : R * R =>
              (value_m (x_min, x_max) (fst xy), value_m (y_min, y_max) (snd xy))).
  match goal with
  | |- exists _, mapM (mapM ?f1) _ = _ /\ _ =>
    rewrite (mapM_ext _ (fun s => bs <- mapM f1 s ;; Ok (map g bs))) in Hout;
      [rewrite mapM_fmap in Hout;
       destruct (mapM (mapM f1) (data4 f)) as [normalized|e];
       [|discriminate]
      |]
  end.
  + exists normalized. split; [reflexivity|]. simpl in Hout. congruence.
  + intros s. rewrite <- mapM_fmap. apply mapM_ext. intros ch.
    destruct (expected _ _) as [ex|e]; simpl; [|reflexivity].
    destruct (expected _ _) as [ey|e]; simpl; reflexivity.
- unfold value_m. simpl. repeat split; field.
Qed.

Lemma spatial_softmax_v2_affine_witness :
  exists out normalized,
    SpatialSoftmaxV2.forward
      (SpatialSoftmaxV2.init 1 2 1 None NCHW (0, 20) (-1, 1))
      (Tensor4 (1, 1, 1, 2)%nat [[[[0; 0]]]]) = Ok out /\
    SpatialSoftmax.forward (SpatialSoftmax.init 1 2 1 None NCHW)
      (Tensor4 (1, 1, 1, 2)%nat [[[[0; 0]]]]) = Ok normalized /\
    out = map (map (fun xy => (value_m (0, 20) (fst xy),
                               value_m (-1, 1) (snd xy)))) normalized.
Proof.
eexists.
destruct (proj1 (@spatial_softmax_v2_affine 1 2 1 None NCHW (0, 20) (-1, 1)
                   (Tensor4 (1, 1, 1, 2)%nat [[[[0; 0]]]]) _ eq_refl))
  as [normalized [Hn Hout]].
exists normalized. split; [reflexivity|]. split; assumption.
Defined.

(** ** The expected position *)

Lemma length_concat_uniform (A : Type) (w : nat) (ch : list (list A)) :
  Forall (fun row => length row = w) ch ->
  length (concat ch) = (length ch * w)%nat.
Proof.
induction 1 as [|row ch Hrow _ IH]; simpl; [reflexivity|].
rewrite length_app, IH, Hrow. reflexivity.
Qed.

Lemma linspace_length (a b : R) (n : nat) : length (linspace a b n) = n.
Proof. unfold linspace. now rewrite length_map, length_seq. Qed.

Lemma meshgrid_lengths (x y : list R) :
  length (reshape_flat (fst (meshgrid x y))) = (length y * length x)%nat /\
  length (reshape_flat (snd (meshgrid x y))) = (length y * length x)%nat.
Proof.
unfold meshgrid, reshape_flat. simpl. split.
- rewrite (@length_concat_uniform _ (length x)), length_map; [reflexivity|].
  apply Forall_map, Forall_forall. reflexivity.
- rewrite (@length_concat_uniform _ (length x)), length_map; [reflexivity|].
  apply Forall_map, Forall_forall. intros yi _. apply length_map.
Qed.

Lemma init_pos_lengths (height width channel : nat) (t : option R)
    (format : data_format) :
  let self := SpatialSoftmax.init height width channel t format in
  length (SpatialSoftmax.pos_x self) = (height * width)%nat /\
  length (SpatialSoftmax.pos_y self) = (height * width)%nat.
Proof.
pose proof (meshgrid_lengths (linspace (-1) 1 height) (linspace (-1) 1 width))
  as [Hx Hy].
rewrite !linspace_length in Hx, Hy.
unfold SpatialSoftmax.init. simpl in *. rewrite Hx, Hy. lia.
Qed.

(** On a well-shaped NCHW input whose maps have as many entries as the
    grid, [forward] returns the two soft-argmaxes of every map. *)
Lemma spatial_softmax_forward_values (self : SpatialSoftmax.t)
    (feature : tensor4) (N C H W : nat) :
  SpatialSoftmax.format self = NCHW ->
  shape4 feature = (N, C, H, W) ->
  wf4 feature ->
  length (SpatialSoftmax.pos_x self) = (H * W)%nat ->
  length (SpatialSoftmax.pos_y self) = (H * W)%nat ->
  SpatialSoftmax.forward self feature
  = Ok (map (map (fun ch =>
          (soft_argmax (SpatialSoftmax.pos_x self)
             (temperature_value (SpatialSoftmax.temp self)) (reshape_flat ch),
           soft_argmax (SpatialSoftmax.pos_y self)
             (temperature_value (SpatialSoftmax.temp self)) (reshape_flat ch))))
        (data4 feature)).
Proof.
intros Hfmt Hshape Hwf Hx Hy. unfold SpatialSoftmax.forward. rewrite Hfmt.
unfold wf4 in Hwf. rewrite Hshape in Hwf. destruct Hwf as [_ Hwf].
apply mapM_map. apply Forall_impl with (2 := Hwf). intros s [_ Hs].
apply mapM_map. apply Forall_impl with (2 := Hs). intros ch [Hch Hrows].
assert (Hlen : length (reshape_flat ch) = (H * W)%nat).
{ unfold reshape_flat. now rewrite (length_concat_uniform Hrows), Hch. }
rewrite !expected_dot by now rewrite softmax_length, length_map, Hlen.
reflexivity.
Qed.

(** An input of the configured height and width is accepted. *)
Lemma spatial_softmax_v2_accepts (height width channel : nat)
    (temperature : option R) (x_range y_range : R * R) (feature : tensor4)
    (N C : nat) :
  shape4 feature = (N, C, height, width) ->
  wf4 feature ->
  exists out,
    SpatialSoftmaxV2.forward
      (SpatialSoftmaxV2.init height width channel temperature NCHW
         x_range y_range) feature = Ok out.
Proof.
intros Hshape Hwf.
pose proof (init_pos_lengths height width channel temperature NCHW) as [Hx Hy].
unfold SpatialSoftmaxV2.forward, SpatialSoftmaxV2.init.
unfold SpatialSoftmax.init in Hx, Hy. simpl in *.
rewrite Hshape, !Nat.eqb_refl. simpl.
unfold wf4 in Hwf. rewrite Hshape in Hwf. destruct Hwf as [_ Hwf].
apply mapM_total. apply Forall_impl with (2 := Hwf). intros s [_ Hs].
apply mapM_total. apply Forall_impl with (2 := Hs). intros ch [Hch Hrows].
assert (Hlen : length (reshape_flat ch) = (height * width)%nat).
{ unfold reshape_flat. now rewrite (length_concat_uniform Hrows), Hch. }
rewrite !expected_dot by now rewrite softmax_length, length_map, Hlen.
simpl. destruct x_range, y_range. eauto.
Qed.

Lemma sum_abs_nonneg (pk : R) (pos : list R) :
  0 <= sum (map (fun p => Rabs (p - pk)) pos).
Proof.
induction pos as [|p pos IH]; simpl; [lra|].
pose proof (Rabs_pos (p - pk)). lra.
Qed.

(** As the temperature decreases to 0 the soft-argmax of a row with a
    strict maximum tends to the coordinate stored at the index of the
    maximum. *)
Lemma soft_argmax_limit (g pk rk : R) (pos row : list R) :
  0 < g ->
  Forall2 (fun p r => p = pk \/ r + g <= rk) pos row ->
  In rk row ->
  forall eps, 0 < eps ->
  exists delta, 0 < delta /\
    forall T, 0 < T < delta -> Rabs (soft_argmax pos T row - pk) < eps.
Proof.
intros Hg HF Hin eps Heps.
set (M := sum (map (fun p => Rabs (p - pk)) pos)).
assert (HM : 0 <= M) by apply sum_abs_nonneg.
exists (eps * g / (M + 1)). split.
- apply Rdiv_lt_0_compat; [apply Rmult_lt_0_compat|]; lra.
- intros T [HT0 HTd].
  pose proof (@soft_argmax_bound T g pk rk HT0 Hg pos row HF Hin) as Hb.
  fold M in Hb.
  assert (Hq : T / g < eps / (M + 1)).
  { apply Rmult_lt_reg_r with (r := g); [exact Hg|].
    replace (T / g * g) with T by (field; lra).
    replace (eps / (M + 1) * g) with (eps * g / (M + 1)) by (field; lra).
    exact HTd. }
  assert (Hs : M * (eps / (M + 1)) < eps).
  { apply Rmult_lt_reg_r with (r := M + 1); [lra|].
    replace (M * (eps / (M + 1)) * (M + 1)) with (M * eps) by (field; lra).
    nra. }
  assert (Hm : M * (T / g) <= M * (eps / (M + 1))).
  { apply Rmult_le_compat_l; lra. }
  lra.
Qed.

(** C1 on a map that is not square.  With height 2 and width 3, a map whose
    only activation is at row 0, column 2 has grid coordinates -1 along the
    height and +1 along the width; as the temperature decreases to 0 the
    output of [forward] tends to (-1, 0) instead. *)
Theorem spatial_softmax_nonsquare_limit :
  nth 0 (linspace (-1) 1 2) 0 = -1 /\
  nth 2 (linspace (-1) 1 3) 0 = 1 /\
  forall eps, 0 < eps ->
  exists delta, 0 < delta /\
    forall T, 0 < T < delta ->
    exists x y,
      SpatialSoftmax.forward (SpatialSoftmax.init 2 3 1 (Some T) NCHW)
        (Tensor4 (1, 1, 2, 3)%nat [[[[0; 0; 1]; [0; 0; 0]]]])
      = Ok [[(x, y)]] /\
      Rabs (x - -1) < eps /\ Rabs (y - 0) < eps.
Proof.
split; [simpl; lra|]. split; [simpl; lra|].
intros eps Heps.
set (self := fun T => SpatialSoftmax.init 2 3 1 (Some T) NCHW).
assert (Hposx : forall T, Forall2 (fun p r => p = -1 \/ r + 1 <= 1)
                  (SpatialSoftmax.pos_x (self T)) [0; 0; 1; 0; 0; 0]).
{ intros T. unfold self, SpatialSoftmax.init. simpl.
  repeat constructor; lra. }
assert (Hposy : forall T, Forall2 (fun p r => p = 0 \/ r + 1 <= 1)
                  (SpatialSoftmax.pos_y (self T)) [0; 0; 1; 0; 0; 0]).
{ intros T. unfold self, SpatialSoftmax.init. simpl.
  repeat constructor; lra. }
assert (Hin : In 1 [0; 0; 1; 0; 0; 0]) by (simpl; auto).
destruct (@soft_argmax_limit 1 (-1) 1 _ _ Rlt_0_1 (Hposx 1) Hin eps Heps)
  as [dx [Hdx Hx]].
destruct (@soft_argmax_limit 1 0 1 _ _ Rlt_0_1 (Hposy 1) Hin eps Heps)
  as [dy [Hdy Hy]].
exists (Rmin dx dy). split; [now apply Rmin_pos|].
intros T [HT0 HTd].
pose proof (Rmin_l dx dy). pose proof (Rmin_r dx dy).
assert (Hval : temperature_value (SpatialSoftmax.temp (self T)) = 1 * T).
{ unfold self, SpatialSoftmax.init, init_temperature.
  rewrite truthy_nonzero by lra. reflexivity. }
pose proof (init_pos_lengths 2 3 1 (Some T) NCHW) as [Hlx Hly].
fold (self T) in Hlx, Hly.
change (SpatialSoftmax.init 2 3 1 (Some T) NCHW) with (self T).
rewrite (@spatial_softmax_forward_values (self T)
           (Tensor4 (1, 1, 2, 3)%nat [[[[0; 0; 1]; [0; 0; 0]]]]) 1 1 2 3
           eq_refl eq_refl); try assumption.
- rewrite Hval, Rmult_1_l.
  change (SpatialSoftmax.pos_x (self T)) with (SpatialSoftmax.pos_x (self 1)).
  change (SpatialSoftmax.pos_y (self T)) with (SpatialSoftmax.pos_y (self 1)).
  do 2 eexists. split; [reflexivity|].
  split.
  + apply (Hx T). lra.
  + apply (Hy T). lra.
- unfold wf4. simpl. repeat constructor.
Qed.

Lemma spatial_softmax_nonsquare_limit_witness :
  exists delta, 0 < delta /\
    forall T, 0 < T < delta ->
    exists x y,
      SpatialSoftmax.forward (SpatialSoftmax.init 2 3 1 (Some T) NCHW)
        (Tensor4 (1, 1, 2, 3)%nat [[[[0; 0; 1]; [0; 0; 0]]]])
      = Ok [[(x, y)]] /\
      Rabs (x - -1) < 1 / 2 /\ Rabs (y - 0) < 1 / 2.
Proof.
apply (proj2 (proj2 spatial_softmax_nonsquare_limit) (1 / 2)). lra.
Defined.

(** ** The limit on every grid *)

Lemma nth_concat_uniform (A : Type) (W : nat) (ch : list (list A)) (i j : nat)
    (d : A) :
  Forall (fun row => length row = W) ch ->
  (j < W)%nat ->
  nth (i * W + j) (concat ch) d = nth j (nth i ch []) d.
Proof.
intros Hch Hj. revert i. induction Hch as [|row ch Hrow _ IH]; intros i.
- simpl. destruct i; destruct j; destruct (_ + _)%nat; reflexivity.
- destruct i as [|i]; simpl.
  + apply app_nth1. lia.
  + rewrite app_nth2 by lia. rewrite Hrow.
    replace (W + i * W + j - W)%nat with (i * W + j)%nat by lia. apply IH.
Qed.

Lemma Forall2_of_nth (A B : Type) (P : A -> B -> Prop) (da : A) (db : B)
    (l : list A) (l' : list B) :
  length l = length l' ->
  (forall q, (q < length l)%nat -> P (nth q l da) (nth q l' db)) ->
  Forall2 P l l'.
Proof.
revert l'; induction l as [|x l IH]; intros [|y l'] Hlen Hnth;
  try discriminate; constructor.
- apply (Hnth 0%nat). simpl. lia.
- apply IH; [now injection Hlen|].
  intros q Hq. apply (Hnth (S q)). simpl. lia.
Qed.

Section OnePeak.

Variables H W h w : nat.
Variable a : R.
Variable ch : list (list R).
Hypothesis Hh : (h < H)%nat.
Hypothesis Hw : (w < W)%nat.
Hypothesis Ha : 0 < a.
Hypothesis Hrows : length ch = H.
Hypothesis Hcols : Forall (fun row => length row = W) ch.
Hypothesis Hpeak : forall i j, (i < H)%nat -> (j < W)%nat ->
  nth j (nth i ch []) 0 = if Nat.eqb i h && Nat.eqb j w then a else 0.

Lemma flat_length : length (reshape_flat ch) = (H * W)%nat.
Proof. unfold reshape_flat. now rewrite (length_concat_uniform Hcols), Hrows. Qed.

Lemma flat_entry (q : nat) :
  (q < H * W)%nat ->
  nth q (reshape_flat ch) 0 = if Nat.eqb q (h * W + w) then a else 0.
Proof.
intros Hq.
assert (HW : W <> 0%nat) by lia.
pose proof (Nat.div_mod_eq q W) as Hdm.
pose proof (Nat.mod_upper_bound q W HW) as Hmod.
assert (Hdiv : (q / W < H)%nat) by (apply Nat.Div0.div_lt_upper_bound; lia).
replace q with (q / W * W + q mod W)%nat at 1 by lia.
unfold reshape_flat. rewrite (nth_concat_uniform _ _ Hcols Hmod).
rewrite (Hpeak Hdiv Hmod).
destruct (Nat.eqb_spec (q / W) h) as [Hi|Hi];
  destruct (Nat.eqb_spec (q mod W) w) as [Hj|Hj];
  destruct (Nat.eqb_spec q (h * W + w)) as [Hk|Hk]; simpl; try reflexivity.
- exfalso. apply Hk. rewrite <- Hi, <- Hj. lia.
- exfalso. apply Hj. subst q.
  rewrite Nat.add_comm, Nat.Div0.mod_add. now apply Nat.mod_small.
- exfalso. apply Hi. subst q.
  rewrite Nat.div_add_l by lia. rewrite (Nat.div_small w W Hw). lia.
- exfalso. apply Hi. subst q.
  rewrite Nat.div_add_l by lia. rewrite (Nat.div_small w W Hw). lia.
Qed.

Lemma peak_in_range : (h * W + w < H * W)%nat.
Proof. nia. Qed.

Lemma flat_peak : In a (reshape_flat ch).
Proof.
pose proof (flat_entry peak_in_range) as Hk. rewrite Nat.eqb_refl in Hk.
rewrite <- Hk. apply nth_In. rewrite flat_length. exact peak_in_range.
Qed.

Lemma flat_off_peak (pos : list R) :
  length pos = (H * W)%nat ->
  Forall2 (fun p r => p = nth (h * W + w) pos 0 \/ r + a <= a)
          pos (reshape_flat ch).
Proof.
intros Hlen. apply Forall2_of_nth with (da := 0) (db := 0).
- now rewrite flat_length.
- intros q Hq. rewrite Hlen in Hq. rewrite (flat_entry Hq).
  destruct (Nat.eqb_spec q (h * W + w)) as [->|_]; [now left|right; lra].
Qed.

(** As the temperature decreases to 0, the output of [forward] on a map
    whose only activation is at row [h], column [w] tends to the two grid
    entries stored at the flat index [h * W + w]. *)
Lemma spatial_softmax_limit (eps : R) :
  0 < eps ->
  exists delta, 0 < delta /\
    forall T, 0 < T < delta ->
    exists x y,
      SpatialSoftmax.forward (SpatialSoftmax.init H W 1 (Some T) NCHW)
        (Tensor4 (1, 1, H, W)%nat [[ch]]) = Ok [[(x, y)]] /\
      Rabs (x - nth (h * W + w)
                  (SpatialSoftmax.pos_x (SpatialSoftmax.init H W 1 None NCHW)) 0)
        < eps /\
      Rabs (y - nth (h * W + w)
                  (SpatialSoftmax.pos_y (SpatialSoftmax.init H W 1 None NCHW)) 0)
        < eps.
Proof.
intros Heps.
set (selfN := SpatialSoftmax.init H W 1 None NCHW).
pose proof (init_pos_lengths H W 1 None NCHW) as [Hlx Hly].
fold selfN in Hlx, Hly.
destruct (@soft_argmax_limit a _ a _ _ Ha (@flat_off_peak (SpatialSoftmax.pos_x selfN) Hlx) flat_peak
            eps Heps) as [dx [Hdx Hx]].
destruct (@soft_argmax_limit a _ a _ _ Ha (@flat_off_peak (SpatialSoftmax.pos_y selfN) Hly) flat_peak
            eps Heps) as [dy [Hdy Hy]].
exists (Rmin dx dy). split; [now apply Rmin_pos|].
intros T [HT0 HTd].
pose proof (Rmin_l dx dy). pose proof (Rmin_r dx dy).
set (self := SpatialSoftmax.init H W 1 (Some T) NCHW).
assert (Hval : temperature_value (SpatialSoftmax.temp self) = 1 * T).
{ unfold self, SpatialSoftmax.init, init_temperature.
  rewrite truthy_nonzero by lra. reflexivity. }
assert (Hpx : SpatialSoftmax.pos_x self = SpatialSoftmax.pos_x selfN)
  by reflexivity.
assert (Hpy : SpatialSoftmax.pos_y self = SpatialSoftmax.pos_y selfN)
  by reflexivity.
rewrite (@spatial_softmax_forward_values self
           (Tensor4 (1, 1, H, W)%nat [[ch]]) 1 1 H W eq_refl eq_refl).
- rewrite Hval, Rmult_1_l, Hpx, Hpy. simpl. do 2 eexists.
  split; [reflexivity|]. split; [apply Hx|apply Hy]; lra.
- unfold wf4. simpl. split; [reflexivity|].
  repeat constructor; assumption.
- now rewrite Hpx.
- now rewrite Hpy.
Qed.

End OnePeak.

(** The grid is laid out in [width] runs of [height] entries: [pos_x]
    repeats the height coordinates inside every run, [pos_y] is constant on
    a run. *)
Lemma grid_entries (height width channel : nat) (t : option R)
    (format : data_format) (i j : nat) :
  (i < width)%nat -> (j < height)%nat ->
  let self := SpatialSoftmax.init height width channel t format in
  nth (i * height + j) (SpatialSoftmax.pos_x self) 0
    = nth j (linspace (-1) 1 height) 0 /\
  nth (i * height + j) (SpatialSoftmax.pos_y self) 0
    = nth i (linspace (-1) 1 width) 0.
Proof.
intros Hi Hj. unfold SpatialSoftmax.init, meshgrid, reshape_flat. simpl.
set (lh := linspace (-1) 1 height). set (lw := linspace (-1) 1 width).
assert (Hlh : length lh = height) by apply linspace_length.
assert (Hlw : length lw = width) by apply linspace_length.
split.
- rewrite (@nth_concat_uniform _ height); [|
    apply Forall_map, Forall_forall; intros; exact Hlh|exact Hj].
  rewrite (nth_indep _ [] lh) by (rewrite length_map; lia).
  now rewrite (map_nth (fun _ => lh) lw 0).
- rewrite (@nth_concat_uniform _ height); [|
    apply Forall_map, Forall_forall; intros; rewrite length_map; exact Hlh
    |exact Hj].
  rewrite (nth_indep _ [] (map (fun _ => 0) lh)) by (rewrite length_map; lia).
  rewrite (map_nth (fun yi => map (fun _ => yi) lh) lw 0).
  rewrite (nth_indep _ 0 (nth i lw 0)) by (rewrite length_map; lia).
  now rewrite (map_nth (fun _ => nth i lw 0) lh 0).
Qed.

(** X22.  On a square map the limit is the grid coordinate of the peak: the
    column coordinate as x and the row coordinate as y. *)
Lemma spatial_softmax_limit_square (n h w : nat) (a : R) (ch : list (list R))
    (eps : R) :
  (h < n)%nat -> (w < n)%nat -> 0 < a ->
  length ch = n ->
  Forall (fun row => length row = n) ch ->
  (forall i j, (i < n)%nat -> (j < n)%nat ->
     nth j (nth i ch []) 0 = if Nat.eqb i h && Nat.eqb j w then a else 0) ->
  0 < eps ->
  exists delta, 0 < delta /\
    forall T, 0 < T < delta ->
    exists x y,
      SpatialSoftmax.forward (SpatialSoftmax.init n n 1 (Some T) NCHW)
        (Tensor4 (1, 1, n, n)%nat [[ch]]) = Ok [[(x, y)]] /\
      Rabs (x - nth w (linspace (-1) 1 n) 0) < eps /\
      Rabs (y - nth h (linspace (-1) 1 n) 0) < eps.
Proof.
intros Hh Hw Ha Hrows Hcols Hpeak Heps.
destruct (grid_entries 1 None NCHW Hh Hw) as [Hx Hy].
rewrite <- Hx, <- Hy.
exact (@spatial_softmax_limit n n h w a ch Hh Hw Ha Hrows Hcols Hpeak eps Heps).
Qed.

(** ** The training and validation passes *)

Local Close Scope R_scope.

Lemma truediv_len_nonempty (A : Type) (total : Q) (l : list A) :
  l <> [] -> truediv total (len l) = Ok (total / len l)%Q.
Proof.
intros Hl. unfold truediv.
destruct (Qeq_bool (len l) 0) eqn:Hz; [|reflexivity].
apply Qeq_bool_iff in Hz. unfold len, Qeq in Hz. simpl in Hz.
destruct l; [contradiction|]. simpl in Hz. lia.
Qed.

Lemma truediv_len_empty (A : Type) (total : Q) :
  truediv total (len (@nil A)) = Raise ZeroDivisionError.
Proof. reflexivity. Qed.

Lemma fold_left_Qsum (A : Type) (f : A -> Q) (l : list A) (acc : Q) :
  (fold_left (fun a x => a + f x) l acc == acc + Qsum (map f l))%Q.
Proof.
revert acc; induction l as [|x l IH]; intros acc; simpl.
- ring.
- rewrite IH. ring.
Qed.

Section TrainProperties.

Variables Params Grads Obs Act Pred : Type.
Variable model : bool -> Params -> Obs -> Pred.
Variable loss_fn : Pred -> Act -> Q.
Variable backward : bool -> Params -> Obs -> Act -> option Grads -> Grads.
Variable OptState : Type.
Variable optimizer_step : OptState -> Params -> option Grads -> OptState * Params.
Variable obs_to : Device -> Obs -> Obs.
Variable act_to : Device -> Act -> Act.

Local Abbreviation world' := (world Params Grads OptState).
Local Abbreviation train_batch' :=
  (train_batch model loss_fn backward optimizer_step obs_to act_to).
Local Abbreviation train_epoch' :=
  (train_epoch model loss_fn backward optimizer_step obs_to act_to).
Local Abbreviation train_losses' :=
  (train_losses model loss_fn backward optimizer_step obs_to act_to).
Local Abbreviation validate_batch' :=
  (@validate_batch _ Grads _ _ _ model loss_fn OptState obs_to act_to).
Local Abbreviation validate_epoch' :=
  (@validate_epoch _ Grads _ _ _ model loss_fn OptState obs_to act_to).
Local Abbreviation validate_losses' :=
  (@validate_losses _ Grads _ _ _ model loss_fn OptState obs_to act_to).
Local Abbreviation batch_loss' :=
  (@batch_loss _ Grads _ _ _ model loss_fn OptState obs_to act_to).

Lemma train_batch_eq (n : nat) (d : Device) (e : nat) (l : bool) (idx : nat)
    (b : Batch Obs Act) (acc : Q) (s : world') :
  train_batch' n d e l idx b (acc, s)
  = ((acc + batch_loss' d b s)%Q, snd (train_batch' n d e l idx b (0%Q, s))).
Proof.
unfold train_batch, batch_loss, step, loss_backward, zero_grad, emit. simpl.
destruct (optimizer_step _ _ _) as [o p]. destruct l; reflexivity.
Qed.

Lemma train_loop_total (n : nat) (d : Device) (e : nat) (l : bool)
    (loader : list (Batch Obs Act)) (idx : nat) (acc : Q) (s : world') :
  (fst (enumerate_loop (train_batch' n d e l) idx loader (acc, s))
   == acc + Qsum (train_losses' n d e l idx loader s))%Q.
Proof.
revert idx acc s; induction loader as [|b rest IH]; intros idx acc s;
  cbn [enumerate_loop train_losses Qsum fold_right fst].
- ring.
- rewrite train_batch_eq, IH. unfold Qsum. ring.
Qed.

Lemma train_losses_length (n : nat) (d : Device) (e : nat) (l : bool)
    (loader : list (Batch Obs Act)) (idx : nat) (s : world') :
  length (train_losses' n d e l idx loader s) = length loader.
Proof.
revert idx s; induction loader as [|b rest IH]; intros idx s; simpl;
  [reflexivity|]. now rewrite IH.
Qed.

(** The validation loop, in closed form: it adds the losses from left to
    right and only extends the trace. *)
Lemma validate_loop_closed (d : Device) (loader : list (Batch Obs Act))
    (idx : nat) (acc : Q) (s : world') :
  enumerate_loop (validate_batch' d) idx loader (acc, s)
  = (fold_left (fun a b => (a + batch_loss' d b s)%Q) loader acc,
     World (params s) (grads s) (opt_state s) (training s)
       (trace s ++ map (fun b => SetPostfix (batch_loss' d b s)) loader)).
Proof.
revert idx acc s; induction loader as [|b rest IH]; intros idx acc s;
  cbn [enumerate_loop fold_left map].
- rewrite app_nil_r. now destruct s.
- change (validate_batch' d idx b (acc, s))
    with ((acc + batch_loss' d b s)%Q,
          emit (SetPostfix (batch_loss' d b s)) s).
  rewrite IH. unfold emit, batch_loss. simpl.
  now rewrite <- app_assoc.
Qed.

Lemma validate_epoch_closed (loader : list (Batch Obs Act)) (d : Device)
    (e : nat) (l : bool) (s : world') :
  validate_epoch' loader d e l s
  = (truediv (fold_left (fun a b => (a + batch_loss' d b (set_training false s))%Q)
                loader 0%Q) (len loader),
     World (params s) (grads s) (opt_state s) false
       (trace s ++ map SetPostfix (validate_losses' d loader s))).
Proof.
unfold validate_epoch. rewrite validate_loop_closed. unfold validate_losses.
now rewrite map_map.
Qed.

(** C7.  On a loader that yields at least one batch, [train_epoch] and
    [validate_epoch] return the arithmetic mean of the per-batch losses: their
    sum divided by the number of batches, whatever the batches hold. *)
Theorem epoch_loss_is_batch_mean (loader : list (Batch Obs Act)) (d : Device)
    (e : nat) (l : bool) (s : world') :
  loader <> [] ->
  (exists r,
     fst (train_epoch' loader d e l s) = Ok r /\
     (r == arithmetic_mean
             (train_losses' (length loader) d e l 0 loader
                (set_training true s)))%Q /\
     length (train_losses' (length loader) d e l 0 loader
               (set_training true s)) = length loader) /\
  (exists r,
     fst (validate_epoch' loader d e l s) = Ok r /\
     (r == arithmetic_mean (validate_losses' d loader s))%Q /\
     length (validate_losses' d loader s) = length loader).
Proof.
intros Hne. split.
- unfold train_epoch.
  pose proof (train_loop_total (length loader) d e l loader 0 0%Q
                (set_training true s)) as Htot.
  destruct (enumerate_loop _ 0 loader (0%Q, set_training true s))
    as [total s'] eqn:Hloop.
  simpl in Htot. rewrite (truediv_len_nonempty total Hne). simpl.
  eexists. split; [reflexivity|]. split.
  + unfold arithmetic_mean, len. rewrite train_losses_length, Htot.
    now rewrite Qplus_0_l.
  + apply train_losses_length.
- rewrite validate_epoch_closed. simpl.
  rewrite (truediv_len_nonempty _ Hne).
  eexists. split; [reflexivity|]. split.
  + unfold arithmetic_mean, len, validate_losses.
    rewrite length_map, fold_left_Qsum. now rewrite Qplus_0_l.
  + unfold validate_losses. apply length_map.
Qed.

(** C8.  [validate_epoch] computes each batch loss as the training pass
    does, in evaluation mode, and leaves the parameters, the gradients and
    the optimizer state as they were; what it adds to the trace holds no
    optimizer call. *)
Theorem validate_epoch_frame (loader : list (Batch Obs Act)) (d : Device)
    (e : nat) (l : bool) (s : world') :
  let s' := snd (validate_epoch' loader d e l s) in
  params s' = params s /\
  grads s' = grads s /\
  opt_state s' = opt_state s /\
  training s' = false /\
  validate_losses' d loader s
    = map (fun b => loss_fn (model false (params s) (obs_to d (fst b)))
                            (act_to d (snd b))) loader /\
  trace s' = trace s ++ map SetPostfix (validate_losses' d loader s) /\
  forallb (fun ev => negb (optimizer_event ev))
          (map SetPostfix (validate_losses' d loader s)) = true.
Proof.
rewrite validate_epoch_closed. simpl. repeat split.
rewrite forallb_forall. intros ev Hin.
apply in_map_iff in Hin as [q [<- _]]. reflexivity.
Qed.

(** The training pass does call the optimizer, once per batch. *)
Lemma train_batch_steps (n : nat) (d : Device) (e : nat) (l : bool) (idx : nat)
    (b : Batch Obs Act) (acc : Q) (s : world') :
  In Step (trace (snd (train_batch' n d e l idx b (acc, s)))) /\
  params (snd (train_batch' n d e l idx b (acc, s)))
  = snd (optimizer_step (opt_state s) (params s)
           (Some (backward (training s) (params s) (obs_to d (fst b))
                    (act_to d (snd b)) None))).
Proof.
unfold train_batch, step, loss_backward, zero_grad, emit. simpl.
destruct (optimizer_step _ _ _) as [o p]. simpl.
split; [|now destruct l].
destruct l; simpl; rewrite !in_app_iff; simpl; tauto.
Qed.

Lemma train_epoch_nonempty_ok (loader : list (Batch Obs Act)) (d : Device)
    (e : nat) (l : bool) (s : world') :
  loader <> [] -> exists r, fst (train_epoch' loader d e l s) = Ok r.
Proof.
intros Hne. unfold train_epoch.
destruct (enumerate_loop _ 0 loader (0%Q, set_training true s)) as [total s'].
simpl. rewrite (truediv_len_nonempty total Hne). eauto.
Qed.

Lemma train_epoch_empty (d : Device) (e : nat) (l : bool) (s : world') :
  fst (train_epoch' [] d e l s) = Raise ZeroDivisionError.
Proof. reflexivity. Qed.

Lemma validate_epoch_empty (d : Device) (e : nat) (l : bool) (s : world') :
  fst (validate_epoch' [] d e l s) = Raise ZeroDivisionError.
Proof. reflexivity. Qed.

(** *** The epoch loop of [main] *)

Variable Sample : Type.
Variable random_split :
  list Sample -> Z -> Z -> result (list Sample * list Sample).
Variable DataLoader : list Sample -> nat -> bool -> nat -> list (Batch Obs Act).

(** What is used of the collaborators: the two parts of a split have the
    lengths that were asked for, and a loader that does not shuffle yields
    no batch from an empty data set. *)
Hypothesis random_split_lengths :
  forall dataset a b train_dataset val_dataset,
    random_split dataset a b = Ok (train_dataset, val_dataset) ->
    Z.of_nat (length train_dataset) = a /\ Z.of_nat (length val_dataset) = b.
Hypothesis DataLoader_empty :
  forall batch_size epoch, DataLoader [] batch_size false epoch = [].

Local Abbreviation epoch_body' :=
  (epoch_body model loss_fn backward optimizer_step obs_to act_to).
Local Abbreviation epoch_loop' :=
  (epoch_loop model loss_fn backward optimizer_step obs_to act_to).
Local Abbreviation main' :=
  (main model loss_fn backward optimizer_step obs_to act_to
        random_split DataLoader).

Lemma epoch_body_empty_validation (cfg : Config) (d : Device)
    (train_loader val_loader : nat -> list (Batch Obs Act)) (epoch : nat)
    (s : world') :
  train_loader epoch <> [] -> val_loader epoch = [] ->
  fst (epoch_body' cfg d train_loader val_loader epoch s)
  = Raise ZeroDivisionError.
Proof.
intros Htrain Hval. unfold epoch_body.
destruct (train_epoch_nonempty_ok d epoch (wandb_log cfg) s Htrain) as [r Hr].
destruct (train_epoch' (train_loader epoch) d epoch (wandb_log cfg) s)
  as [r' s1]. simpl in Hr. subst r'.
rewrite Hval.
pose proof (validate_epoch_empty d epoch (wandb_log cfg) s1) as Hv.
destruct (validate_epoch' [] d epoch (wandb_log cfg) s1) as [rv s2].
simpl in Hv. now subst rv.
Qed.

(** C10.  A pass over a loader that yields no batch ends in
    [ZeroDivisionError], in training and in validation.  When
    [int(len(dataset) * val_ratio)] is 0 the validation split is empty, so
    the validation pass of every epoch raises that error, and a run of at
    least one epoch whose first training pass has a batch ends in it. *)
Theorem empty_loader_divides_by_zero (cfg : Config) (d : Device)
    (dataset train_dataset val_dataset : list Sample) (s : world') :
  (forall e l s0,
     fst (train_epoch' [] d e l s0) = Raise ZeroDivisionError /\
     fst (validate_epoch' [] d e l s0) = Raise ZeroDivisionError) /\
  (int (len dataset * val_ratio cfg) = 0%Z ->
   random_split dataset
     (Z.of_nat (length dataset) - int (len dataset * val_ratio cfg))
     (int (len dataset * val_ratio cfg))
   = Ok (train_dataset, val_dataset) ->
   (forall epoch s0,
      fst (validate_epoch' (DataLoader val_dataset (batch_size cfg) false epoch)
             d epoch (wandb_log cfg) s0) = Raise ZeroDivisionError) /\
   (epochs cfg <> 0%nat ->
    DataLoader train_dataset (batch_size cfg) true 0 <> [] ->
    fst (main' cfg d dataset s) = Raise ZeroDivisionError)).
Proof.
split; [intros e l s0; split; reflexivity|].
intros Hsize Hsplit.
assert (Hval : val_dataset = []).
{ apply random_split_lengths in Hsplit as [_ Hlen]. rewrite Hsize in Hlen.
  destruct val_dataset; [reflexivity|discriminate]. }
subst val_dataset. split.
- intros epoch s0. rewrite DataLoader_empty. reflexivity.
- intros Hepochs Htrain. unfold main. rewrite Hsplit.
  destruct (epochs cfg) as [|n]; [contradiction|].
  cbn [epoch_loop].
  set (s1 := if wandb_log cfg then emit WandbInit s else s).
  pose proof (@epoch_body_empty_validation cfg d
                (DataLoader train_dataset (batch_size cfg) true)
                (DataLoader [] (batch_size cfg) false) 0 s1 Htrain
                (DataLoader_empty _ _)) as Hbody.
  destruct (epoch_body' cfg d _ _ 0 s1) as [r s2]. simpl in Hbody. subst r.
  reflexivity.
Qed.

End TrainProperties.

Lemma toy_random_split_lengths (dataset : list (Q * Q)) (a b : Z)
    (train_dataset val_dataset : list (Q * Q)) :
  Toy.random_split dataset a b = Ok (train_dataset, val_dataset) ->
  Z.of_nat (length train_dataset) = a /\ Z.of_nat (length val_dataset) = b.
Proof.
unfold Toy.random_split.
destruct (Z.leb_spec 0 a); simpl; [|discriminate].
destruct (Z.leb_spec 0 b); simpl; [|discriminate].
destruct (Z.eqb_spec (a + b) (Z.of_nat (length dataset))); [|discriminate].
intros H1; injection H1 as <- <-.
rewrite length_firstn, length_skipn. lia.
Qed.

Lemma epoch_loss_is_batch_mean_witness :
  exists r,
    fst (train_epoch Toy.model Toy.loss_fn Toy.backward Toy.optimizer_step
           Toy.to Toy.to Toy.dataset cpu 0 false Toy.s0) = Ok r /\
    (r == arithmetic_mean
            (train_losses Toy.model Toy.loss_fn Toy.backward
               Toy.optimizer_step Toy.to Toy.to (length Toy.dataset) cpu 0
               false 0 Toy.dataset (set_training true Toy.s0)))%Q /\
    length (train_losses Toy.model Toy.loss_fn Toy.backward
              Toy.optimizer_step Toy.to Toy.to (length Toy.dataset) cpu 0
              false 0 Toy.dataset (set_training true Toy.s0))
    = length Toy.dataset.
Proof.
refine (proj1 (@epoch_loss_is_batch_mean Q Q Q Q Q Toy.model Toy.loss_fn
                 Toy.backward unit Toy.optimizer_step Toy.to Toy.to
                 Toy.dataset cpu 0%nat false Toy.s0 _)).
discriminate.
Defined.

Lemma empty_loader_divides_by_zero_witness :
  fst (main Toy.model Toy.loss_fn Toy.backward Toy.optimizer_step
         Toy.to Toy.to Toy.random_split Toy.DataLoader Toy.cfg cpu
         Toy.dataset Toy.s0) = Raise ZeroDivisionError.
Proof.
refine (proj2 (proj2 (@empty_loader_divides_by_zero Q Q Q Q Q Toy.model
                 Toy.loss_fn Toy.backward unit Toy.optimizer_step Toy.to
                 Toy.to (Q * Q)%type Toy.random_split Toy.DataLoader
                 toy_random_split_lengths (fun _ _ => eq_refl)
                 Toy.cfg cpu Toy.dataset Toy.dataset [] Toy.s0)
               eq_refl eq_refl) _ _).
- discriminate.
- discriminate.
Defined.

(** The two losses of the first epoch of the instance, on a training split
    of two batches: the mean is taken over the batches. *)
Example toy_train_epoch :
  exists r,
    fst (train_epoch Toy.model Toy.loss_fn Toy.backward Toy.optimizer_step
           Toy.to Toy.to [(1, 2); (2, 4)]%Q cpu 0 false Toy.s0) = Ok r /\
    (r == (1 + (64 # 25)) / 2)%Q.
Proof. eexists. split; [vm_compute; reflexivity|]. reflexivity. Qed.

(** * Further properties *)

(** ** The attention weights *)

Local Open Scope R_scope.

Lemma sum_exp_nonneg (z : list R) : 0 <= sum (map exp z).
Proof.
induction z as [|v z IH]; simpl; [lra|]. pose proof (exp_pos v). lra.
Qed.

Lemma sum_exp_pos (z : list R) : z <> [] -> 0 < sum (map exp z).
Proof.
destruct z as [|v z]; [contradiction|]. intros _. simpl.
pose proof (exp_pos v). pose proof (sum_exp_nonneg z). lra.
Qed.

Lemma exp_le_sum (z : list R) (v : R) : In v z -> exp v <= sum (map exp z).
Proof.
induction z as [|u z IH]; simpl; [contradiction|]. intros [->|Hin].
- pose proof (sum_exp_nonneg z). lra.
- specialize (IH Hin). pose proof (exp_pos u). lra.
Qed.

Lemma sum_div (e : list R) (S : R) : sum (map (fun v => v / S) e) = sum e / S.
Proof.
induction e as [|v e IH]; simpl; [unfold Rdiv; ring|]. rewrite IH.
unfold Rdiv. ring.
Qed.

Lemma softmax_sum (z : list R) : z <> [] -> sum (softmax z) = 1.
Proof.
intros Hz. unfold softmax. rewrite sum_div.
pose proof (sum_exp_pos Hz). field. lra.
Qed.

Lemma softmax_entries (z : list R) : Forall (fun p => 0 < p <= 1) (softmax z).
Proof.
unfold softmax. apply Forall_forall. intros p Hin.
apply in_map_iff in Hin as [ev [<- Hin]].
apply in_map_iff in Hin as [v [<- Hin]].
assert (Hz : z <> []) by (intros ->; contradiction).
pose proof (sum_exp_pos Hz) as HS. pose proof (exp_pos v) as Hv.
pose proof (exp_le_sum z v Hin) as Hle. split.
- now apply Rdiv_lt_0_compat.
- apply Rmult_le_reg_r with (r := sum (map exp z)); [exact HS|].
  unfold Rdiv. rewrite Rmult_assoc, Rinv_l by lra. lra.
Qed.

Lemma softmax_weights (z : list R) :
  z <> [] ->
  length (softmax z) = length z /\
  sum (softmax z) = 1 /\
  Forall (fun p => 0 < p <= 1) (softmax z).
Proof.
intros Hz. split; [apply softmax_length|]. split.
- now apply softmax_sum.
- apply softmax_entries.
Qed.

(** X1.  At every temperature other than 0 the weights that [forward]
    computes for a map with at least one entry are a probability
    distribution: one weight per entry, each in (0, 1], of sum 1. *)
Theorem softmax_is_distribution (T : R) (row : list R) :
  T <> 0 ->
  row <> [] ->
  let weight := softmax (map (fun v => v / T) row) in
  length weight = length row /\
  sum weight = 1 /\
  Forall (fun p => 0 < p <= 1) weight.
Proof.
intros HT Hrow weight. subst weight.
assert (Hz : map (fun v => v / T) row <> []).
{ destruct row; [contradiction|discriminate]. }
destruct (softmax_weights Hz) as (Hl & Hs & He).
rewrite length_map in Hl. auto.
Qed.

Lemma softmax_is_distribution_witness :
  let weight := softmax (map (fun v => v / 2) [0; 1; 3]) in
  length weight = 3%nat /\ sum weight = 1 /\
  Forall (fun p => 0 < p <= 1) weight.
Proof.
apply (@softmax_is_distribution 2 [0; 1; 3]).
- lra.
- discriminate.
Defined.

(** ** The range of the expected position *)

Lemma dot_between (a b : R) (pos weight : list R) :
  length pos = length weight ->
  Forall (fun p => a <= p <= b) pos ->
  Forall (fun v => 0 < v <= 1) weight ->
  a * sum weight <= dot pos weight <= b * sum weight.
Proof.
unfold dot. revert weight; induction pos as [|p pos IH]; intros [|v weight] Hlen
  Hpos Hw; simpl in *; try discriminate; [lra|].
inversion Hpos as [|? ? Hp Hpos']; subst.
inversion Hw as [|? ? Hv Hw']; subst.
injection Hlen as Hlen. specialize (IH weight Hlen Hpos' Hw'). nra.
Qed.

Lemma soft_argmax_between (a b T : R) (pos row : list R) :
  length pos = length row ->
  row <> [] ->
  Forall (fun p => a <= p <= b) pos ->
  a <= soft_argmax pos T row <= b.
Proof.
intros Hlen Hrow Hpos. unfold soft_argmax.
assert (Hz : map (fun v => v / T) row <> []).
{ destruct row; [contradiction|discriminate]. }
destruct (softmax_weights Hz) as [Hl [Hs He]].
rewrite length_map in Hl.
pose proof (@dot_between a b pos _ (eq_trans Hlen (eq_sym Hl)) Hpos He) as Hd.
rewrite Hs in Hd. lra.
Qed.

Lemma linspace_range (n : nat) :
  Forall (fun p => -1 <= p <= 1) (linspace (-1) 1 n).
Proof.
unfold linspace. apply Forall_forall. intros p Hin.
apply in_map_iff in Hin as [i [<- Hin]]. apply in_seq in Hin.
destruct n as [|[|m]]; [lia| |].
- assert (i = 0%nat) by lia. subst i. simpl. lra.
- replace (S (S m) - 1)%nat with (S m) by lia.
  assert (Hi : (i <= S m)%nat) by lia. apply le_INR in Hi.
  pose proof (pos_INR i) as H0.
  assert (Hm : 0 < INR (S m)) by (apply lt_0_INR; lia).
  assert (Hq : 0 <= INR i * ((1 - -1) / INR (S m)) <= 2).
  { replace (INR i * ((1 - -1) / INR (S m))) with (2 * (INR i / INR (S m)))
      by (field; lra).
    assert (0 <= INR i / INR (S m) <= 1); [|lra]. split.
    - apply Rmult_le_pos; [lra|]. apply Rlt_le, Rinv_0_lt_compat, Hm.
    - apply Rmult_le_reg_r with (r := INR (S m)); [exact Hm|].
      unfold Rdiv. rewrite Rmult_assoc, Rinv_l by lra. lra. }
  lra.
Qed.

Lemma grid_range (height width channel : nat) (t : option R)
    (format : data_format) :
  let self := SpatialSoftmax.init height width channel t format in
  Forall (fun p => -1 <= p <= 1) (SpatialSoftmax.pos_x self) /\
  Forall (fun p => -1 <= p <= 1) (SpatialSoftmax.pos_y self).
Proof.
unfold SpatialSoftmax.init, meshgrid, reshape_flat. simpl.
pose proof (linspace_range height) as Hh.
pose proof (linspace_range width) as Hw.
rewrite Forall_forall in Hh, Hw. split; apply Forall_forall; intros p Hin;
  apply in_concat in Hin as [l [Hl Hp]]; apply in_map_iff in Hl as [yi [<- Hyi]].
- now apply Hh.
- apply in_map_iff in Hp as [_ [<- _]]. now apply Hw.
Qed.

Lemma soft_argmax_unit_range (T : R) (pos row : list R) :
  length pos = length row ->
  Forall (fun p => -1 <= p <= 1) pos ->
  -1 <= soft_argmax pos T row <= 1.
Proof.
intros Hlen Hpos. destruct row as [|v row].
- unfold soft_argmax, dot. simpl. rewrite combine_nil. simpl. lra.
- apply soft_argmax_between; [assumption|discriminate|assumption].
Qed.

(** X2.  [SpatialSoftmax.forward] compares neither the height and width of
    its input with those of the module nor the channel count: every
    well-shaped NCHW input whose maps have height * width entries is
    accepted, the output has one pair per sample and channel of the input,
    and both coordinates of every pair lie in [-1, 1], at every
    temperature. *)
Theorem spatial_softmax_output_range (height width channel N C H W : nat)
    (t : option R) (feature : tensor4) :
  shape4 feature = (N, C, H, W) ->
  wf4 feature ->
  (H * W = height * width)%nat ->
  exists out,
    SpatialSoftmax.forward (SpatialSoftmax.init height width channel t NCHW)
      feature = Ok out /\
    length out = N /\
    Forall (fun s => length s = C /\
              Forall (fun xy => -1 <= fst xy <= 1 /\ -1 <= snd xy <= 1) s) out.
Proof.
intros Hshape Hwf Hsize.
set (self := SpatialSoftmax.init height width channel t NCHW).
pose proof (init_pos_lengths height width channel t NCHW) as [Hlx Hly].
pose proof (grid_range height width channel t NCHW) as [Hrx Hry].
fold self in Hlx, Hly, Hrx, Hry. rewrite <- Hsize in Hlx, Hly.
rewrite (@spatial_softmax_forward_values self feature N C H W eq_refl Hshape
           Hwf Hlx Hly).
eexists. split; [reflexivity|].
unfold wf4 in Hwf. rewrite Hshape in Hwf. destruct Hwf as [HN Hwf].
split; [now rewrite length_map|].
apply Forall_map. apply Forall_impl with (2 := Hwf). intros s [Hs Hch].
split; [now rewrite length_map|].
apply Forall_map. apply Forall_impl with (2 := Hch). intros ch [Hrows Hcols].
assert (Hlen : length (reshape_flat ch) = (H * W)%nat).
{ unfold reshape_flat. now rewrite (length_concat_uniform Hcols), Hrows. }
cbn [fst snd]. split; (apply soft_argmax_unit_range; [congruence|assumption]).
Qed.

Lemma spatial_softmax_output_range_witness :
  exists out,
    SpatialSoftmax.forward (SpatialSoftmax.init 2 3 1 (Some 2) NCHW)
      (Tensor4 (1, 2, 3, 2)%nat
         [[[[0; 1]; [2; 3]; [4; 5]]; [[1; 1]; [1; 1]; [1; 1]]]]) = Ok out /\
    length out = 1%nat /\
    Forall (fun s => length s = 2%nat /\
              Forall (fun xy => -1 <= fst xy <= 1 /\ -1 <= snd xy <= 1) s) out.
Proof.
apply (@spatial_softmax_output_range 2 3 1 1 2 3 2).
- reflexivity.
- unfold wf4. simpl. repeat constructor.
- reflexivity.
Defined.

(** ** [SpatialSoftmaxV2]: the shape guard and the physical range *)

Lemma spatial_softmax_v2_forward_values (height width channel : nat)
    (t : option R) (x_range y_range : R * R) (feature : tensor4) (N C : nat) :
  shape4 feature = (N, C, height, width) ->
  wf4 feature ->
  let self := SpatialSoftmaxV2.init height width channel t NCHW
                x_range y_range in
  SpatialSoftmaxV2.forward self feature
  = Ok (map (map (fun ch =>
          (value_m x_range
             (soft_argmax (SpatialSoftmaxV2.pos_x self)
                (temperature_value (SpatialSoftmaxV2.temp self))
                (reshape_flat ch)),
           value_m y_range
             (soft_argmax (SpatialSoftmaxV2.pos_y self)
                (temperature_value (SpatialSoftmaxV2.temp self))
                (reshape_flat ch)))))
        (data4 feature)).
Proof.
intros Hshape Hwf self.
pose proof (init_pos_lengths height width channel t NCHW) as [Hx Hy].
unfold SpatialSoftmaxV2.forward. subst self.
unfold SpatialSoftmaxV2.init. unfold SpatialSoftmax.init in Hx, Hy.
simpl in *. rewrite Hshape, !Nat.eqb_refl. simpl.
unfold wf4 in Hwf. rewrite Hshape in Hwf. destruct Hwf as [_ Hwf].
apply mapM_map. apply Forall_impl with (2 := Hwf). intros s [_ Hs].
apply mapM_map. apply Forall_impl with (2 := Hs). intros ch [Hch Hrows].
assert (Hlen : length (reshape_flat ch) = (height * width)%nat).
{ unfold reshape_flat. now rewrite (length_concat_uniform Hrows), Hch. }
rewrite !expected_dot by now rewrite softmax_length, length_map, Hlen.
simpl. destruct x_range, y_range. reflexivity.
Qed.

Lemma value_m_between (range : R * R) (v : R) :
  fst range <= snd range -> -1 <= v <= 1 ->
  fst range <= value_m range v <= snd range.
Proof.
destruct range as [lo hi]. unfold value_m. simpl. intros Hr Hv.
assert (Hu : 0 <= (v + 1) / 2 <= 1) by lra.
nra.
Qed.

(** X3.  When each configured range has its minimum below its maximum,
    every pair that [SpatialSoftmaxV2.forward] returns on an input of the
    configured height and width lies inside the physical ranges:
    x in [x_min, x_max] and y in [y_min, y_max]. *)
Theorem spatial_softmax_v2_output_range (height width channel N C : nat)
    (t : option R) (x_range y_range : R * R) (feature : tensor4) :
  shape4 feature = (N, C, height, width) ->
  wf4 feature ->
  fst x_range <= snd x_range ->
  fst y_range <= snd y_range ->
  exists out,
    SpatialSoftmaxV2.forward
      (SpatialSoftmaxV2.init height width channel t NCHW x_range y_range)
      feature = Ok out /\
    Forall (Forall (fun xy =>
              fst x_range <= fst xy <= snd x_range /\
              fst y_range <= snd xy <= snd y_range)) out.
Proof.
intros Hshape Hwf Hxr Hyr.
rewrite (@spatial_softmax_v2_forward_values height width channel t x_range
           y_range feature N C Hshape Hwf).
eexists. split; [reflexivity|].
pose proof (init_pos_lengths height width channel t NCHW) as [Hlx Hly].
pose proof (grid_range height width channel t NCHW) as [Hrx Hry].
unfold wf4 in Hwf. rewrite Hshape in Hwf. destruct Hwf as [_ Hwf].
apply Forall_map. apply Forall_impl with (2 := Hwf). intros s [_ Hch].
apply Forall_map. apply Forall_impl with (2 := Hch). intros ch [Hrows Hcols].
assert (Hlen : length (reshape_flat ch) = (height * width)%nat).
{ unfold reshape_flat. now rewrite (length_concat_uniform Hcols), Hrows. }
cbn [fst snd].
split; (apply value_m_between; [assumption|]);
  (apply soft_argmax_unit_range; [|assumption]).
- etransitivity; [exact Hlx|now symmetry].
- etransitivity; [exact Hly|now symmetry].
Qed.

Lemma spatial_softmax_v2_output_range_witness :
  exists out,
    SpatialSoftmaxV2.forward
      (SpatialSoftmaxV2.init 2 2 1 None NCHW (0, 20) (-1, 1))
      (Tensor4 (1, 1, 2, 2)%nat [[[[0; 5]; [1; 2]]]]) = Ok out /\
    Forall (Forall (fun xy => 0 <= fst xy <= 20 /\ -1 <= snd xy <= 1)) out.
Proof.
apply (@spatial_softmax_v2_output_range 2 2 1 1 1 None (0, 20) (-1, 1)).
- reflexivity.
- unfold wf4. simpl. repeat constructor.
- simpl. lra.
- simpl. lra.
Defined.

(** X5.  [SpatialSoftmaxV2.forward] returns on a well-shaped NCHW input
    exactly when the height and the width of the input are those of the
    module; any other height or width fails the assertion, also on an empty
    batch. *)
Theorem spatial_softmax_v2_shape_guard (height width channel N C H W : nat)
    (t : option R) (x_range y_range : R * R) (feature : tensor4) :
  shape4 feature = (N, C, H, W) ->
  wf4 feature ->
  let self := SpatialSoftmaxV2.init height width channel t NCHW
                x_range y_range in
  (H <> height \/ W <> width ->
   SpatialSoftmaxV2.forward self feature = Raise AssertionError) /\
  (H = height /\ W = width ->
   exists out, SpatialSoftmaxV2.forward self feature = Ok out /\
               length out = N /\ Forall (fun s => length s = C) out).
Proof.
intros Hshape Hwf self. split.
- intros Hne. unfold SpatialSoftmaxV2.forward. subst self.
  unfold SpatialSoftmaxV2.init. simpl. rewrite Hshape.
  destruct (Nat.eqb_spec H height); destruct (Nat.eqb_spec W width);
    simpl; try reflexivity. lia.
- intros [-> ->]. subst self.
  rewrite (@spatial_softmax_v2_forward_values height width channel t x_range
             y_range feature N C Hshape Hwf).
  eexists. split; [reflexivity|].
  unfold wf4 in Hwf. rewrite Hshape in Hwf. destruct Hwf as [HN Hwf].
  split; [now rewrite length_map|].
  apply Forall_map. apply Forall_impl with (2 := Hwf). intros s [Hs _].
  now rewrite length_map.
Qed.

Lemma spatial_softmax_v2_shape_guard_witness :
  SpatialSoftmaxV2.forward
    (SpatialSoftmaxV2.init 2 3 1 None NCHW (0, 20) (-1, 1))
    (Tensor4 (1, 1, 3, 2)%nat [[[[0; 1]; [2; 3]; [4; 5]]]])
  = Raise AssertionError.
Proof.
refine (proj1 (@spatial_softmax_v2_shape_guard 2 3 1 1 1 3 2 None (0, 20)
                 (-1, 1) (Tensor4 (1, 1, 3, 2)%nat [[[[0; 1]; [2; 3]; [4; 5]]]])
                 eq_refl _) _).
- unfold wf4. simpl. repeat constructor.
- left. discriminate.
Defined.

(** ** Invariance under a constant offset *)

Lemma mapM_map_in (A B C : Type) (f : B -> result C) (g : A -> B) (l : list A) :
  mapM f (map g l) = mapM (fun a => f (g a)) l.
Proof.
induction l as [|a l IH]; simpl; [reflexivity|]. now rewrite IH.
Qed.

Lemma sum_exp_shift (k : R) (z : list R) :
  sum (map exp (map (fun v => v + k) z)) = sum (map exp z) * exp k.
Proof.
induction z as [|v z IH]; simpl; [ring|]. rewrite IH, exp_plus. ring.
Qed.

Lemma softmax_shift (k : R) (z : list R) :
  softmax (map (fun v => v + k) z) = softmax z.
Proof.
destruct z as [|u z]; [reflexivity|].
assert (Hz : u :: z <> []) by discriminate.
pose proof (sum_exp_pos Hz) as HS. pose proof (exp_pos k) as Hk.
unfold softmax. rewrite sum_exp_shift, !map_map.
apply map_ext. intros v. rewrite exp_plus. field. lra.
Qed.

Lemma channel_weight_shift (T c : R) (ch : list (list R)) :
  softmax (map (fun v => v / T)
             (reshape_flat (map (map (fun v => v + c)) ch)))
  = softmax (map (fun v => v / T) (reshape_flat ch)).
Proof.
unfold reshape_flat. rewrite <- concat_map, map_map.
rewrite <- (softmax_shift (c / T) (map (fun v => v / T) (concat ch))).
rewrite map_map. f_equal. apply map_ext. intros v. unfold Rdiv. ring.
Qed.

(** X4.  Adding the same constant to every entry of the feature map changes
    the result of neither extractor: the soft-argmax depends on differences
    of activations only. *)
Theorem spatial_softmax_offset_invariant (c : R) (feature : tensor4)
    (s : SpatialSoftmax.t) (v : SpatialSoftmaxV2.t) :
  SpatialSoftmax.format s = NCHW ->
  SpatialSoftmaxV2.format v = NCHW ->
  SpatialSoftmax.forward s (shift4 c feature)
    = SpatialSoftmax.forward s feature /\
  SpatialSoftmaxV2.forward v (shift4 c feature)
    = SpatialSoftmaxV2.forward v feature.
Proof.
intros Hs Hv. split.
- unfold SpatialSoftmax.forward. rewrite Hs. unfold shift4. simpl.
  rewrite mapM_map_in. apply mapM_ext. intros smp.
  rewrite mapM_map_in. apply mapM_ext. intros ch.
  cbv zeta. now rewrite channel_weight_shift.
- unfold SpatialSoftmaxV2.forward. rewrite Hv. unfold shift4. simpl.
  destruct (shape4 feature) as [[[n0 c0] H] W].
  destruct (Nat.eqb H (SpatialSoftmaxV2.height v)
            && Nat.eqb W (SpatialSoftmaxV2.width v)); [|reflexivity].
  rewrite mapM_map_in. apply mapM_ext. intros smp.
  rewrite mapM_map_in. apply mapM_ext. intros ch.
  cbv zeta. now rewrite channel_weight_shift.
Qed.

Lemma spatial_softmax_offset_invariant_witness :
  SpatialSoftmax.forward (SpatialSoftmax.init 1 2 1 None NCHW)
    (shift4 10 (Tensor4 (1, 1, 1, 2)%nat [[[[0; 1]]]]))
  = SpatialSoftmax.forward (SpatialSoftmax.init 1 2 1 None NCHW)
      (Tensor4 (1, 1, 1, 2)%nat [[[[0; 1]]]]).
Proof.
exact (proj1 (@spatial_softmax_offset_invariant 10
                (Tensor4 (1, 1, 1, 2)%nat [[[[0; 1]]]])
                (SpatialSoftmax.init 1 2 1 None NCHW)
                (SpatialSoftmaxV2.init 1 2 1 None NCHW (0, 20) (-1, 1))
                eq_refl eq_refl)).
Defined.

(** ** Maps that do not fit the grid *)

Lemma bzip_mismatch (A B C : Type) (f : A -> B -> result C) (xs : list A)
    (ys : list B) :
  length xs <> length ys -> length xs <> 1%nat -> length ys <> 1%nat ->
  bzip f xs ys = Raise RuntimeError.
Proof.
intros Hne Hx Hy. unfold bzip.
destruct (Nat.eqb_spec (length xs) (length ys)); [contradiction|].
destruct xs as [|x [|x' xs]]; destruct ys as [|y [|y' ys]]; simpl in *;
  try reflexivity; contradiction.
Qed.

(** X6.  [SpatialSoftmax.forward] has no assertion of its own: on a
    non-empty batch whose maps have a number of entries other than that of
    the grid, neither number being 1, the product with the grid cannot be
    broadcast and [forward] raises [RuntimeError]. *)
Theorem spatial_softmax_size_mismatch (height width channel N C H W : nat)
    (t : option R) (feature : tensor4) :
  shape4 feature = (N, C, H, W) ->
  wf4 feature ->
  (0 < N)%nat -> (0 < C)%nat ->
  (H * W <> height * width)%nat ->
  (H * W <> 1)%nat -> (height * width <> 1)%nat ->
  SpatialSoftmax.forward (SpatialSoftmax.init height width channel t NCHW)
    feature = Raise RuntimeError.
Proof.
intros Hshape Hwf HN HC Hne H1 Hg1.
pose proof (init_pos_lengths height width channel t NCHW) as [Hlx _].
unfold SpatialSoftmax.forward.
set (self := SpatialSoftmax.init height width channel t NCHW) in *.
change (SpatialSoftmax.format self) with NCHW. cbv iota.
unfold wf4 in Hwf. rewrite Hshape in Hwf. destruct Hwf as [Hlen Hwf].
destruct (data4 feature) as [|s rest]; [simpl in Hlen; lia|].
inversion Hwf as [|? ? [Hs Hch] _]; subst.
destruct s as [|ch chs]; [simpl in HC; lia|].
inversion Hch as [|? ? [Hrows Hcols] _]; subst.
assert (Hrow : length (reshape_flat ch) = (length ch * W)%nat).
{ unfold reshape_flat. now rewrite (length_concat_uniform Hcols). }
cbn [mapM]. unfold expected at 1.
rewrite bzip_mismatch; [reflexivity| | |];
  rewrite ?softmax_length, ?length_map, ?Hrow, ?Hlx; lia.
Qed.

Lemma spatial_softmax_size_mismatch_witness :
  SpatialSoftmax.forward (SpatialSoftmax.init 2 2 1 None NCHW)
    (Tensor4 (1, 1, 2, 3)%nat [[[[0; 1; 2]; [3; 4; 5]]]]) = Raise RuntimeError.
Proof.
apply (@spatial_softmax_size_mismatch 2 2 1 1 1 2 3).
- reflexivity.
- unfold wf4. simpl. repeat constructor.
- lia.
- lia.
- simpl. lia.
- simpl. lia.
- simpl. lia.
Defined.

(** X7.  A grid of height 1 has the single height coordinate -1, not 0: on
    every input of height 1 and positive width, the x coordinate that
    [SpatialSoftmax.forward] returns is exactly -1 for every sample and
    channel. *)
Theorem spatial_softmax_single_row (width channel N C : nat) (t : option R)
    (feature : tensor4) :
  shape4 feature = (N, C, 1, width)%nat ->
  wf4 feature ->
  (0 < width)%nat ->
  exists out,
    SpatialSoftmax.forward (SpatialSoftmax.init 1 width channel t NCHW) feature
      = Ok out /\
    Forall (Forall (fun xy => fst xy = -1)) out.
Proof.
intros Hshape Hwf Hwidth.
set (self := SpatialSoftmax.init 1 width channel t NCHW).
pose proof (init_pos_lengths 1 width channel t NCHW) as [Hlx Hly].
fold self in Hlx, Hly.
assert (Hpos : Forall (fun p => -1 <= p <= -1) (SpatialSoftmax.pos_x self)).
{ unfold self, SpatialSoftmax.init, meshgrid, reshape_flat. simpl.
  apply Forall_forall. intros p Hin.
  apply in_concat in Hin as [l [Hl Hp]].
  apply in_map_iff in Hl as [yi [<- _]].
  destruct Hp as [<-|[]]. rewrite Rmult_0_l. lra. }
rewrite (@spatial_softmax_forward_values self feature N C 1 width eq_refl
           Hshape Hwf Hlx Hly).
eexists. split; [reflexivity|].
unfold wf4 in Hwf. rewrite Hshape in Hwf. destruct Hwf as [_ Hwf].
apply Forall_map. apply Forall_impl with (2 := Hwf). intros s [_ Hch].
apply Forall_map. apply Forall_impl with (2 := Hch). intros ch [Hrows Hcols].
assert (Hlen : length (reshape_flat ch) = (1 * width)%nat).
{ unfold reshape_flat. now rewrite (length_concat_uniform Hcols), Hrows. }
cbn [fst].
assert (Hne : reshape_flat ch <> []).
{ intros Hnil. rewrite Hnil in Hlen. simpl in Hlen. lia. }
pose proof (@soft_argmax_between (-1) (-1)
              (temperature_value (SpatialSoftmax.temp self))
              (SpatialSoftmax.pos_x self) (reshape_flat ch)
              (eq_trans Hlx (eq_sym Hlen)) Hne Hpos).
lra.
Qed.

Lemma spatial_softmax_single_row_witness :
  exists out,
    SpatialSoftmax.forward (SpatialSoftmax.init 1 3 1 None NCHW)
      (Tensor4 (1, 1, 1, 3)%nat [[[[5; 0; 7]]]]) = Ok out /\
    Forall (Forall (fun xy => fst xy = -1)) out.
Proof.
apply (@spatial_softmax_single_row 3 1 1 1).
- reflexivity.
- unfold wf4. simpl. repeat constructor.
- lia.
Defined.

(** ** [Normalize] and [NormalizeV2]: channel counts and devices *)

Lemma normalize_init_inv (mean std : list R) (n : Normalize.t) :
  Normalize.init mean std = Ok n ->
  length mean = 3%nat /\ length std = 3%nat /\
  n = Normalize.Make
        (Placed cpu (Tensor4 (1, 3, 1, 1)%nat [map (fun m => [[m]]) mean]))
        (Placed cpu (Tensor4 (1, 3, 1, 1)%nat [map (fun m => [[m]]) std])).
Proof.
unfold Normalize.init. intros Hn.
destruct (stats_tensor mean) as [pm|] eqn:Hpm; [|discriminate].
destruct (stats_tensor std) as [ps|] eqn:Hps; [|discriminate].
simpl in Hn. injection Hn as <-.
apply stats_tensor_inv in Hpm as [Hm ->], Hps as [Hs ->]. auto.
Qed.

Lemma normalize_v2_init_inv (mean std : list R) (v : NormalizeV2.t) :
  NormalizeV2.init mean std = Ok v ->
  length mean = 3%nat /\ length std = 3%nat /\
  v = NormalizeV2.Make
        (Placed cpu (Tensor4 (1, 3, 1, 1)%nat [map (fun m => [[m]]) mean]))
        (Placed cpu (Tensor4 (1, 3, 1, 1)%nat [map (fun m => [[m]]) std])).
Proof.
unfold NormalizeV2.init. intros Hv.
destruct (stats_tensor mean) as [pm|] eqn:Hpm; [|discriminate].
destruct (stats_tensor std) as [ps|] eqn:Hps; [|discriminate].
simpl in Hv. injection Hv as <-.
apply stats_tensor_inv in Hpm as [Hm ->], Hps as [Hs ->]. auto.
Qed.

Lemma broadcast_dim_mismatch (c : nat) :
  c <> 3%nat -> c <> 1%nat -> broadcast_dim c 3 = Raise RuntimeError.
Proof.
intros H3 H1. unfold broadcast_dim.
destruct (Nat.eqb_spec c 3); [contradiction|].
destruct (Nat.eqb_spec c 1); [contradiction|]. reflexivity.
Qed.

(** X8.  An input whose channel count is neither 3 nor 1 cannot be
    broadcast against the statistics: both normalisation modules raise
    [RuntimeError], whatever the batch size, the height and the width, and
    also on an empty batch. *)
Theorem normalize_channel_mismatch (mean std : list R) (n : Normalize.t)
    (v : NormalizeV2.t) (x : placed) (N C H W : nat) :
  Normalize.init mean std = Ok n ->
  NormalizeV2.init mean std = Ok v ->
  shape4 (value x) = (N, C, H, W) ->
  C <> 3%nat -> C <> 1%nat ->
  Normalize.forward (Normalize.module_to (device x) n) x = Raise RuntimeError /\
  NormalizeV2.forward v x = Raise RuntimeError.
Proof.
intros Hn Hv Hshape H3 H1.
apply normalize_init_inv in Hn as (_ & _ & ->).
apply normalize_v2_init_inv in Hv as (_ & _ & ->).
assert (Hsub : forall st, pbinop Rminus x
          (to (device x) (Placed cpu (Tensor4 (1, 3, 1, 1)%nat st)))
        = Raise RuntimeError).
{ intros st. unfold pbinop, to. simpl. rewrite Device_eqb_refl.
  unfold binop4. simpl. rewrite Hshape. simpl.
  rewrite broadcast_dim_1_r. simpl.
  now rewrite (broadcast_dim_mismatch H3 H1). }
split.
- unfold Normalize.forward, Normalize.module_to, sub. simpl. now rewrite Hsub.
- unfold NormalizeV2.forward, sub. simpl. now rewrite Hsub.
Qed.

Lemma normalize_channel_mismatch_witness :
  exists n v,
    Normalize.init [0; 0; 0] [1; 1; 1] = Ok n /\
    NormalizeV2.init [0; 0; 0] [1; 1; 1] = Ok v /\
    Normalize.forward (Normalize.module_to cpu n)
      (Placed cpu (Tensor4 (0, 4, 2, 2)%nat [])) = Raise RuntimeError /\
    NormalizeV2.forward v (Placed cpu (Tensor4 (0, 4, 2, 2)%nat []))
    = Raise RuntimeError.
Proof.
do 2 eexists. split; [reflexivity|]. split; [reflexivity|].
apply (@normalize_channel_mismatch [0; 0; 0] [1; 1; 1] _ _
         (Placed cpu (Tensor4 (0, 4, 2, 2)%nat [])) 0 4 2 2 eq_refl eq_refl
         eq_refl); discriminate.
Defined.

(** X10.  [NormalizeV2.forward] needs no call of [module.to]: on a
    three-channel input held by any device it returns
    [(input - mean) / std] on that device, while its own statistics stay on
    the CPU. *)
Theorem normalize_v2_any_device (mean std : list R) (v : NormalizeV2.t)
    (x : placed) (N H W : nat) :
  NormalizeV2.init mean std = Ok v ->
  shape4 (value x) = (N, 3, H, W)%nat ->
  wf4 (value x) ->
  NormalizeV2.forward v x
  = Ok (Placed (device x)
          (Tensor4 (N, 3, H, W)%nat (normalized mean std (data4 (value x))))) /\
  device (NormalizeV2.mean v) = cpu /\ device (NormalizeV2.std v) = cpu.
Proof.
intros Hv Hshape Hwf.
apply normalize_v2_init_inv in Hv as (Hm & Hs & ->).
pose proof (@wf4_channels _ N 3 H W Hshape Hwf) as Hch.
destruct x as [d [sh dat]]. simpl in *. subst sh.
split; [|split; reflexivity].
unfold NormalizeV2.forward, sub, div. simpl.
rewrite (@pbinop_stats Rminus d (Tensor4 (N, 3, H, W)%nat dat) mean N H W
           eq_refl Hch Hm).
simpl.
rewrite (@pbinop_stats Rdiv d
           (Tensor4 (N, 3, H, W)%nat (channelwise Rminus mean dat)) std
           N H W eq_refl (@channelwise_channels Rminus mean dat Hm Hch) Hs).
simpl. now rewrite (@channelwise_sub_div mean std dat Hm Hs Hch).
Qed.

Lemma normalize_v2_any_device_witness :
  exists v,
    NormalizeV2.init [1; 1; 1] [2; 2; 2] = Ok v /\
    NormalizeV2.forward v
      (Placed (cuda 1) (Tensor4 (1, 3, 1, 1)%nat [[[[1]]; [[3]]; [[5]]]]))
    = Ok (Placed (cuda 1)
            (Tensor4 (1, 3, 1, 1)%nat
               (normalized [1; 1; 1] [2; 2; 2] [[[[1]]; [[3]]; [[5]]]]))).
Proof.
eexists. split; [reflexivity|].
refine (proj1 (@normalize_v2_any_device [1; 1; 1] [2; 2; 2] _
                 (Placed (cuda 1)
                    (Tensor4 (1, 3, 1, 1)%nat [[[[1]]; [[3]]; [[5]]]]))
                 1 1 1 eq_refl eq_refl _)).
unfold wf4. simpl. repeat constructor.
Defined.

Lemma bzip_sample_single (op : R -> R -> R) (s : list (list (list R)))
    (v : list R) :
  length s = 1%nat -> length v = 3%nat ->
  bzip (bzip (bzip (fun a b => Ok (op a b)))) s (map (fun m => [[m]]) v)
  = Ok (map (fun cm => map (map (fun a => op a (snd cm))) (fst cm))
            (combine (flat_map (fun ch => [ch; ch; ch]) s) v)).
Proof.
intros Hs Hv.
destruct s as [|ch [|? ?]]; try discriminate.
destruct v as [|m0 [|m1 [|m2 [|? ?]]]]; try discriminate.
unfold bzip at 1. simpl. now rewrite !bzip_channel.
Qed.

Lemma binop4_stats_single (op : R -> R -> R) (x : tensor4) (v : list R)
    (N H W : nat) :
  shape4 x = (N, 1, H, W)%nat ->
  Forall (fun s => length s = 1%nat) (data4 x) ->
  length v = 3%nat ->
  binop4 op x (Tensor4 (1, 3, 1, 1)%nat [map (fun m => [[m]]) v])
  = Ok (Tensor4 (N, 3, H, W)%nat
          (channelwise op v (expand_channels (data4 x)))).
Proof.
intros Hshape Hch Hv. unfold binop4. rewrite Hshape. simpl.
rewrite !broadcast_dim_1_r. simpl.
rewrite bzip_single_r.
rewrite (@mapM_map _ _ _
  (fun s => map (fun cm => map (map (fun a => op a (snd cm))) (fst cm))
                (combine (flat_map (fun ch => [ch; ch; ch]) s) v))).
- unfold channelwise, expand_channels. now rewrite map_map.
- apply Forall_forall. intros s Hs.
  rewrite Forall_forall in Hch. now apply bzip_sample_single; [apply Hch|].
Qed.

Lemma expand_channels_three (d : list (list (list (list R)))) :
  Forall (fun s => length s = 1%nat) d ->
  Forall (fun s => length s = 3%nat) (expand_channels d).
Proof.
intros Hd. unfold expand_channels. apply Forall_map.
apply Forall_impl with (2 := Hd). intros s Hs.
destruct s as [|ch [|? ?]]; try discriminate. reflexivity.
Qed.

Lemma pbinop_stats_single (op : R -> R -> R) (d : Device) (x : tensor4)
    (v : list R) (N H W : nat) :
  shape4 x = (N, 1, H, W)%nat ->
  Forall (fun s => length s = 1%nat) (data4 x) ->
  length v = 3%nat ->
  pbinop op (Placed d x)
    (to d (Placed cpu (Tensor4 (1, 3, 1, 1)%nat [map (fun m => [[m]]) v])))
  = Ok (Placed d (Tensor4 (N, 3, H, W)%nat
                    (channelwise op v (expand_channels (data4 x))))).
Proof.
intros Hshape Hch Hv. unfold pbinop, to. simpl. rewrite Device_eqb_refl.
now rewrite (@binop4_stats_single op x v N H W Hshape Hch Hv).
Qed.

(** X9.  A one-channel input is not refused: it is broadcast against the
    three statistics, and [Normalize.forward] returns a three-channel batch,
    channel c being the single input channel normalised with [mean[c]] and
    [std[c]]. *)
Theorem normalize_single_channel (mean std : list R) (n : Normalize.t)
    (x : placed) (N H W : nat) :
  Normalize.init mean std = Ok n ->
  shape4 (value x) = (N, 1, H, W)%nat ->
  wf4 (value x) ->
  Normalize.forward (Normalize.module_to (device x) n) x
  = Ok (Placed (device x)
          (Tensor4 (N, 3, H, W)%nat
             (normalized mean std (expand_channels (data4 (value x)))))).
Proof.
intros Hn Hshape Hwf.
apply normalize_init_inv in Hn as (Hm & Hs & ->).
pose proof (@wf4_channels _ N 1 H W Hshape Hwf) as Hch.
pose proof (expand_channels_three Hch) as Hch3.
destruct x as [d [sh dat]]. simpl in *. subst sh.
unfold Normalize.forward, Normalize.module_to, sub, div. simpl.
rewrite (@pbinop_stats_single Rminus d (Tensor4 (N, 1, H, W)%nat dat) mean
           N H W eq_refl Hch Hm).
simpl.
rewrite (@pbinop_stats Rdiv d
           (Tensor4 (N, 3, H, W)%nat
              (channelwise Rminus mean (expand_channels dat))) std
           N H W eq_refl
           (@channelwise_channels Rminus mean _ Hm Hch3) Hs).
simpl. now rewrite (@channelwise_sub_div mean std _ Hm Hs Hch3).
Qed.

Lemma normalize_single_channel_witness :
  exists n,
    Normalize.init [1; 2; 3] [2; 2; 2] = Ok n /\
    Normalize.forward (Normalize.module_to cpu n)
      (Placed cpu (Tensor4 (1, 1, 1, 2)%nat [[[[5; 7]]]]))
    = Ok (Placed cpu
            (Tensor4 (1, 3, 1, 2)%nat
               (normalized [1; 2; 3] [2; 2; 2]
                  (expand_channels [[[[5; 7]]]])))).
Proof.
eexists. split; [reflexivity|].
refine (@normalize_single_channel [1; 2; 3] [2; 2; 2] _
          (Placed cpu (Tensor4 (1, 1, 1, 2)%nat [[[[5; 7]]]])) 1 1 2
          eq_refl eq_refl _).
unfold wf4. simpl. repeat constructor.
Defined.

(** ** [select_branch]: negative, fractional and broadcast commands *)

Local Close Scope R_scope.

Lemma getitem_wrap (A : Type) (t : list A) (i : Z) :
  (- Z.of_nat (length t) <= i < Z.of_nat (length t))%Z ->
  exists a, nth_error t (Z.to_nat (i mod Z.of_nat (length t))) = Some a /\
            getitem t i = Ok a.
Proof.
intros Hi. unfold getitem, norm_index.
destruct (Z.ltb_spec i (- Z.of_nat (length t))); [lia|].
destruct (Z.leb_spec (Z.of_nat (length t)) i); [lia|]. simpl.
assert (Hmod : (i mod Z.of_nat (length t)
                = if i <? 0 then i + Z.of_nat (length t) else i)%Z).
{ destruct (Z.ltb_spec i 0).
  - rewrite <- (Z.mod_add i 1 (Z.of_nat (length t))) by lia.
    rewrite Z.mul_1_l. apply Z.mod_small. lia.
  - apply Z.mod_small. lia. }
rewrite <- Hmod.
assert (Hlt : (0 <= i mod Z.of_nat (length t) < Z.of_nat (length t))%Z)
  by (apply Z.mod_pos_bound; lia).
destruct (nth_error t (Z.to_nat (i mod Z.of_nat (length t)))) as [a|] eqn:Hn.
- eauto.
- apply nth_error_None in Hn. lia.
Qed.

(** The gather of [select_branch] over index pairs that are in range. *)
Lemma select_rows (A : Type) (N : nat) (branches : list (list A))
    (idx : list (Z * Z)) :
  Forall (fun row => length row = N) branches ->
  (forall i z k, nth_error idx i = Some (z, k) ->
     z = Z.of_nat i /\ (i < length branches)%nat /\
     (- Z.of_nat N <= k < Z.of_nat N)%Z) ->
  exists selected,
    mapM (fun ic : Z * Z => row <- getitem branches (fst ic) ;;
                            getitem row (snd ic)) idx = Ok selected /\
    length selected = length idx /\
    forall i z k, nth_error idx i = Some (z, k) ->
      exists row sl,
        nth_error branches i = Some row /\
        nth_error row (Z.to_nat (k mod Z.of_nat N)) = Some sl /\
        nth_error selected i = Some sl.
Proof.
intros Hshape Hidx.
set (f := fun ic : Z * Z => _).
assert (Hstep : forall i z k, nth_error idx i = Some (z, k) ->
          exists row sl, nth_error branches i = Some row /\
            nth_error row (Z.to_nat (k mod Z.of_nat N)) = Some sl /\
            f (z, k) = Ok sl).
{ intros i z k Hi. destruct (Hidx i z k Hi) as (-> & Hlt & Hk).
  destruct (@getitem_in_range _ branches (Z.of_nat i)) as [row [Hrow Hget]];
    [lia|].
  rewrite Nat2Z.id in Hrow.
  rewrite Forall_forall in Hshape.
  pose proof (Hshape row (nth_error_In _ _ Hrow)) as HrowN.
  destruct (@getitem_wrap _ row k) as [sl [Hsl Hgs]]; [now rewrite HrowN|].
  rewrite HrowN in Hsl.
  exists row, sl. repeat split; try assumption.
  unfold f. simpl. now rewrite Hget. }
destruct (@mapM_total _ _ f idx) as [selected Hsel].
{ apply Forall_forall. intros [z k] Hin.
  apply In_nth_error in Hin as [i Hi].
  destruct (Hstep i z k Hi) as (row & sl & _ & _ & Hf). eauto. }
exists selected. split; [assumption|].
pose proof (proj1 (mapM_Forall2 f idx selected) Hsel) as HF2.
split; [symmetry; exact (Forall2_length HF2)|].
intros i z k Hi.
destruct (Hstep i z k Hi) as (row & sl & Hrow & Hnth & Hf).
destruct (Forall2_nth_error i HF2 Hi) as [sl' [Hsl' Hf']].
exists row, sl. repeat split; try assumption. congruence.
Qed.

Lemma broadcast_index_single (X Y : Type) (xs : list X) (y : Y) :
  broadcast_index xs [y] = Ok (map (fun x => (x, y)) xs).
Proof. destruct xs as [|x [|x' xs]]; reflexivity. Qed.

Lemma broadcast_index_mismatch (X Y : Type) (xs : list X) (ys : list Y) :
  length xs <> length ys -> length xs <> 1%nat -> length ys <> 1%nat ->
  broadcast_index xs ys = Raise IndexError.
Proof.
intros Hne Hx Hy. unfold broadcast_index.
destruct (Nat.eqb_spec (length xs) (length ys)); [contradiction|].
destruct xs as [|x [|x' xs]]; destruct ys as [|y [|y' ys]]; simpl in *;
  try reflexivity; contradiction.
Qed.

(** X11.  For a branches tensor of shape (B, N, ...) and a command vector
    of B entries whose integer parts lie in [-N, N), [select_branch]
    returns B slices, the i-th being branch [long c[i] mod N] of sample i:
    the non-negative indices select as they are, the negative ones count
    from the last branch. *)
Theorem select_branch_in_range (A : Type) (B N : nat)
    (branches : list (list A)) (command : list Q) :
  length branches = B ->
  Forall (fun row => length row = N) branches ->
  length command = B ->
  Forall (fun c => - Z.of_nat N <= long c < Z.of_nat N)%Z command ->
  exists selected,
    select_branch branches command = Ok selected /\
    length selected = B /\
    forall i c, nth_error command i = Some c ->
      exists row sl,
        nth_error branches i = Some row /\
        nth_error row (Z.to_nat (long c mod Z.of_nat N)) = Some sl /\
        nth_error selected i = Some sl.
Proof.
intros HB Hshape Hlen Hcmd.
rewrite select_branch_unfold by congruence.
destruct (@select_rows A N branches
            (combine (arange (length branches)) (map long command)) Hshape)
  as (selected & Hsel & Hl & Hval).
{ intros i z k Hi.
  apply index_pair_inv in Hi as (-> & Hk & row & Hrow & _).
  split; [reflexivity|]. split.
  - apply nth_error_Some. congruence.
  - rewrite nth_error_map in Hk.
    destruct (nth_error command i) as [c|] eqn:Hc; [|discriminate].
    injection Hk as <-. rewrite Forall_forall in Hcmd.
    apply Hcmd. eapply nth_error_In; eassumption. }
exists selected. split; [exact Hsel|]. split.
- rewrite Hl, length_combine, arange_length, length_map. lia.
- intros i c Hc.
  assert (Hi : nth_error (combine (arange (length branches)) (map long command)) i
               = Some (Z.of_nat i, long c)).
  { apply nth_error_combine_Some. split.
    - apply arange_nth_error. rewrite HB, <- Hlen.
      apply nth_error_Some. congruence.
    - rewrite nth_error_map, Hc. reflexivity. }
  exact (Hval i _ _ Hi).
Qed.

Lemma select_branch_in_range_witness :
  exists selected,
    select_branch [[10; 20; 30]; [40; 50; 60]]%Z [(-1) # 1; (-5) # 2]%Q
    = Ok selected /\
    length selected = 2%nat /\
    forall i c, nth_error [(-1) # 1; (-5) # 2]%Q i = Some c ->
      exists row sl,
        nth_error [[10; 20; 30]; [40; 50; 60]]%Z i = Some row /\
        nth_error row (Z.to_nat (long c mod Z.of_nat 3)) = Some sl /\
        nth_error selected i = Some sl.
Proof.
apply (@select_branch_in_range Z 2 3).
- reflexivity.
- repeat constructor.
- reflexivity.
- repeat constructor; vm_compute; discriminate.
Defined.

Lemma long_fraction (c : Q) : (-1 < c)%Q -> (c < 1)%Q -> long c = 0%Z.
Proof.
intros Hlo Hhi. unfold long. apply Z.quot_small_iff; [lia|].
unfold Qlt in Hlo, Hhi. simpl in Hlo, Hhi. lia.
Qed.

(** X12.  [long] truncates towards zero, so a command strictly between -1
    and 1 is the index 0: for a command vector of such entries,
    [select_branch] returns branch 0 of every sample, also for the negative
    entries. *)
Theorem select_branch_fraction (A : Type) (B N : nat)
    (branches : list (list A)) (command : list Q) :
  length branches = B ->
  Forall (fun row => length row = S N) branches ->
  length command = B ->
  Forall (fun c => -1 < c /\ c < 1)%Q command ->
  exists selected,
    select_branch branches command = Ok selected /\
    length selected = B /\
    forall i row, nth_error branches i = Some row ->
      exists sl, nth_error row 0 = Some sl /\ nth_error selected i = Some sl.
Proof.
intros HB Hshape Hlen Hcmd.
rewrite select_branch_unfold by congruence.
assert (Hlong : map long command = map (fun _ => 0%Z) command).
{ apply map_ext_in. intros c Hin. rewrite Forall_forall in Hcmd.
  destruct (Hcmd c Hin). now apply long_fraction. }
rewrite Hlong.
destruct (@select_rows A (S N) branches
            (combine (arange (length branches)) (map (fun _ => 0%Z) command))
            Hshape)
  as (selected & Hsel & Hl & Hval).
{ intros i z k Hi.
  apply index_pair_inv in Hi as (-> & Hk & row & Hrow & _).
  split; [reflexivity|]. split.
  - apply nth_error_Some. congruence.
  - rewrite nth_error_map in Hk.
    destruct (nth_error command i); [|discriminate].
    injection Hk as <-. lia. }
exists selected. split; [exact Hsel|]. split.
- rewrite Hl, length_combine, arange_length, length_map. lia.
- intros i row Hrow.
  assert (Hlt : (i < length command)%nat).
  { rewrite Hlen, <- HB. apply nth_error_Some. congruence. }
  destruct (nth_error command i) as [c|] eqn:Hc;
    [|apply nth_error_None in Hc; lia].
  assert (Hi : nth_error (combine (arange (length branches))
                            (map (fun _ => 0%Z) command)) i
               = Some (Z.of_nat i, 0%Z)).
  { apply nth_error_combine_Some. split.
    - apply arange_nth_error. lia.
    - rewrite nth_error_map, Hc. reflexivity. }
  destruct (Hval i _ _ Hi) as (row' & sl & Hrow' & Hsl & Hs).
  assert (row' = row) by congruence. subst row'.
  exists sl. split; [|exact Hs].
  rewrite Z.mod_0_l in Hsl by lia. exact Hsl.
Qed.

Lemma select_branch_fraction_witness :
  exists selected,
    select_branch [[10; 20; 30]; [40; 50; 60]]%Z [(-1) # 2; 9 # 10]%Q
    = Ok selected /\
    length selected = 2%nat /\
    forall i row, nth_error [[10; 20; 30]; [40; 50; 60]]%Z i = Some row ->
      exists sl, nth_error row 0 = Some sl /\ nth_error selected i = Some sl.
Proof.
apply (@select_branch_fraction Z 2 2).
- reflexivity.
- repeat constructor.
- reflexivity.
- repeat constructor.
Defined.

(** X13.  The command vector is broadcast against the batch: a command of
    one entry selects the same branch for every sample, and a command whose
    length is neither 1 nor the batch size of a batch of more than one
    sample raises [IndexError]. *)
Theorem select_branch_broadcast (A : Type) (N : nat)
    (branches : list (list A)) :
  Forall (fun row => length row = N) branches ->
  (forall c, (- Z.of_nat N <= long c < Z.of_nat N)%Z ->
     exists selected,
       select_branch branches [c] = Ok selected /\
       length selected = length branches /\
       forall i row, nth_error branches i = Some row ->
         exists sl,
           nth_error row (Z.to_nat (long c mod Z.of_nat N)) = Some sl /\
           nth_error selected i = Some sl) /\
  (forall command,
     length command <> length branches -> length command <> 1%nat ->
     length branches <> 1%nat ->
     select_branch branches command = Raise IndexError).
Proof.
intros Hshape. split.
- intros c Hc. unfold select_branch. simpl.
  rewrite broadcast_index_single. simpl.
  destruct (@select_rows A N branches
              (map (fun z => (z, long c)) (arange (length branches))) Hshape)
    as (selected & Hsel & Hl & Hval).
  { intros i z k Hi. rewrite nth_error_map in Hi.
    destruct (nth_error (arange (length branches)) i) as [z'|] eqn:Hz;
      [|discriminate].
    injection Hi as <- <-.
    assert (Hlt : (i < length branches)%nat).
    { rewrite <- (arange_length (length branches)).
      apply nth_error_Some. congruence. }
    rewrite (arange_nth_error Hlt) in Hz. injection Hz as <-. auto. }
  exists selected. split; [exact Hsel|]. split.
  + now rewrite Hl, length_map, arange_length.
  + intros i row Hrow.
    assert (Hlt : (i < length branches)%nat)
      by (apply nth_error_Some; congruence).
    assert (Hi : nth_error (map (fun z => (z, long c))
                              (arange (length branches))) i
                 = Some (Z.of_nat i, long c)).
    { now rewrite nth_error_map, (arange_nth_error Hlt). }
    destruct (Hval i _ _ Hi) as (row' & sl & Hrow' & Hsl & Hs).
    assert (row' = row) by congruence. subst row'. eauto.
- intros command Hne H1 HB. unfold select_branch.
  rewrite broadcast_index_mismatch;
    rewrite ?arange_length, ?length_map; auto.
Qed.

Lemma select_branch_broadcast_witness :
  exists selected,
    select_branch [[10; 20; 30]; [40; 50; 60]]%Z [2 # 1]%Q = Ok selected /\
    length selected = 2%nat /\
    forall i row, nth_error [[10; 20; 30]; [40; 50; 60]]%Z i = Some row ->
      exists sl,
        nth_error row (Z.to_nat (long (2 # 1) mod Z.of_nat 3)) = Some sl /\
        nth_error selected i = Some sl.
Proof.
refine (proj1 (@select_branch_broadcast Z 3 [[10; 20; 30]; [40; 50; 60]]%Z _)
          (2 # 1)%Q _).
- repeat constructor.
- vm_compute. split; [discriminate|reflexivity].
Defined.

(** ** The trace of a training pass *)

Lemma flat_map_const_seq (A X : Type) (c : list X) (l : list A) (a : nat) :
  flat_map (fun _ => c) (seq a (length l)) = flat_map (fun _ => c) l.
Proof.
revert a; induction l as [|x l IH]; intros a; simpl; [reflexivity|].
now rewrite IH.
Qed.

Lemma checkpoints_app (a b : list event) :
  checkpoints (a ++ b) = checkpoints a ++ checkpoints b.
Proof. apply filter_app. Qed.

Lemma wandb_steps_app (a b : list event) :
  wandb_steps (a ++ b) = wandb_steps a ++ wandb_steps b.
Proof. apply flat_map_app. Qed.

Section TrainTrace.

Variables Params Grads Obs Act Pred : Type.
Variable model : bool -> Params -> Obs -> Pred.
Variable loss_fn : Pred -> Act -> Q.
Variable backward : bool -> Params -> Obs -> Act -> option Grads -> Grads.
Variable OptState : Type.
Variable optimizer_step : OptState -> Params -> option Grads -> OptState * Params.
Variable obs_to : Device -> Obs -> Obs.
Variable act_to : Device -> Act -> Act.

Local Abbreviation world' := (world Params Grads OptState).
Local Abbreviation train_batch' :=
  (train_batch model loss_fn backward optimizer_step obs_to act_to).
Local Abbreviation train_epoch' :=
  (train_epoch model loss_fn backward optimizer_step obs_to act_to).
Local Abbreviation validate_epoch' :=
  (@validate_epoch _ Grads _ _ _ model loss_fn OptState obs_to act_to).
Local Abbreviation validate_losses' :=
  (@validate_losses _ Grads _ _ _ model loss_fn OptState obs_to act_to).
Local Abbreviation batch_loss' :=
  (@batch_loss _ Grads _ _ _ model loss_fn OptState obs_to act_to).

(** What one turn of the training loop adds to the trace. *)
Lemma train_batch_trace (n : nat) (d : Device) (e : nat) (l : bool) (idx : nat)
    (b : Batch Obs Act) (acc : Q) (s : world') :
  trace (snd (train_batch' n d e l idx b (acc, s)))
  = trace s ++
    ([ZeroGrad; Backward; Step; SetPostfix (batch_loss' d b s)] ++
     if l then [WandbLoss (batch_loss' d b s) (e * n + idx)] else []).
Proof.
unfold train_batch, batch_loss, step, loss_backward, zero_grad, emit. simpl.
destruct (optimizer_step _ _ _) as [o p].
destruct l; simpl; rewrite <- !app_assoc; reflexivity.
Qed.

(** A view of the trace that respects concatenation sees, after the
    training loop, what it sees of every turn. *)
Lemma train_loop_project (X : Type) (P : list event -> list X)
    (per : nat -> list X) (n : nat) (d : Device) (e : nat) (l : bool) :
  (forall a b, P (a ++ b) = P a ++ P b) ->
  (forall idx loss,
     P ([ZeroGrad; Backward; Step; SetPostfix loss] ++
        if l then [WandbLoss loss (e * n + idx)] else []) = per idx) ->
  forall (loader : list (Batch Obs Act)) (idx : nat) (acc : Q) (s : world'),
    P (trace (snd (enumerate_loop (train_batch' n d e l) idx loader (acc, s))))
    = P (trace s) ++ flat_map per (seq idx (length loader)).
Proof.
intros Happ Hper loader.
induction loader as [|b rest IH]; intros idx acc s;
  cbn [enumerate_loop length seq flat_map].
- now rewrite app_nil_r.
- rewrite train_batch_eq, IH, train_batch_trace, Happ, Hper.
  now rewrite <- app_assoc.
Qed.

Lemma train_epoch_project (X : Type) (P : list event -> list X)
    (per : nat -> list X) (loader : list (Batch Obs Act)) (d : Device)
    (e : nat) (l : bool) (s : world') :
  (forall a b, P (a ++ b) = P a ++ P b) ->
  (forall idx loss,
     P ([ZeroGrad; Backward; Step; SetPostfix loss] ++
        if l then [WandbLoss loss (e * length loader + idx)] else [])
     = per idx) ->
  P (trace (snd (train_epoch' loader d e l s)))
  = P (trace s) ++ flat_map per (seq 0 (length loader)).
Proof.
intros Happ Hper. unfold train_epoch.
pose proof (@train_loop_project X P per (length loader) d e l Happ Hper
              loader 0%nat 0%Q (set_training true s)) as Hp.
destruct (enumerate_loop _ 0 loader (0%Q, set_training true s)) as [total s'].
exact Hp.
Qed.

(** X14.  A training pass calls the optimizer for every batch, in the
    order [zero_grad], [backward], [step], and nowhere else: restricted to
    optimizer calls, the trace grows by these three events per batch, also
    when the pass ends in the division by zero of an empty loader. *)
Theorem train_epoch_optimizer_calls (loader : list (Batch Obs Act))
    (d : Device) (e : nat) (l : bool) (s : world') :
  filter optimizer_event (trace (snd (train_epoch' loader d e l s)))
  = filter optimizer_event (trace s) ++
    flat_map (fun _ => [ZeroGrad; Backward; Step]) loader.
Proof.
rewrite (@train_epoch_project _ (filter optimizer_event)
           (fun _ => [ZeroGrad; Backward; Step])).
- now rewrite flat_map_const_seq.
- intros a b. apply filter_app.
- intros idx loss. destruct l; reflexivity.
Qed.

(** X15.  With logging on, the training pass of epoch [e] over n batches
    logs the batch losses under the steps e * n, e * n + 1, ...,
    e * n + n - 1, in this order; with logging off it logs nothing. *)
Theorem train_epoch_wandb_steps (loader : list (Batch Obs Act))
    (d : Device) (e : nat) (l : bool) (s : world') :
  wandb_steps (trace (snd (train_epoch' loader d e l s)))
  = wandb_steps (trace s) ++
    if l then map (fun idx => e * length loader + idx)%nat
                  (seq 0 (length loader))
    else [].
Proof.
rewrite (@train_epoch_project _ wandb_steps
           (fun idx => if l then [(e * length loader + idx)%nat] else [])).
- f_equal. destruct l.
  + generalize (seq 0 (length loader)). intros q.
    induction q as [|i q IH]; simpl; [reflexivity|]. now rewrite IH.
  + generalize (seq 0 (length loader)). intros q.
    induction q as [|i q IH]; simpl; [reflexivity|]. exact IH.
- apply wandb_steps_app.
- intros idx loss. destruct l; reflexivity.
Qed.

(** X16.  The loss that [validate_epoch] returns depends on the batches
    and on the parameters only: not on the epoch number, the logging flag,
    the training mode, the gradients, the optimizer state or the trace.  In
    particular a second validation pass returns the loss of the first. *)
Theorem validate_epoch_depends_on_params (loader : list (Batch Obs Act))
    (d : Device) (e e2 : nat) (l l2 : bool) (s s2 : world') :
  params s2 = params s ->
  fst (validate_epoch' loader d e2 l2 s2) = fst (validate_epoch' loader d e l s)
  /\
  fst (validate_epoch' loader d e2 l2 (snd (validate_epoch' loader d e l s)))
  = fst (validate_epoch' loader d e l s).
Proof.
intros Hp. rewrite !validate_epoch_closed. simpl.
unfold batch_loss. simpl. rewrite Hp. split; reflexivity.
Qed.

(** *** Checkpoints of a run *)

Variable Sample : Type.
Variable random_split :
  list Sample -> Z -> Z -> result (list Sample * list Sample).
Variable DataLoader : list Sample -> nat -> bool -> nat -> list (Batch Obs Act).

Local Abbreviation epoch_body' :=
  (epoch_body model loss_fn backward optimizer_step obs_to act_to).
Local Abbreviation epoch_loop' :=
  (epoch_loop model loss_fn backward optimizer_step obs_to act_to).
Local Abbreviation main' :=
  (main model loss_fn backward optimizer_step obs_to act_to
        random_split DataLoader).

Lemma train_epoch_checkpoints (loader : list (Batch Obs Act)) (d : Device)
    (e : nat) (l : bool) (s : world') :
  checkpoints (trace (snd (train_epoch' loader d e l s)))
  = checkpoints (trace s).
Proof.
rewrite (@train_epoch_project _ checkpoints (fun _ => [])).
- generalize (seq 0 (length loader)). intros q.
  induction q as [|i q IH]; simpl; [apply app_nil_r|exact IH].
- apply checkpoints_app.
- intros idx loss. destruct l; reflexivity.
Qed.

Lemma validate_epoch_checkpoints (loader : list (Batch Obs Act)) (d : Device)
    (e : nat) (l : bool) (s : world') :
  checkpoints (trace (snd (validate_epoch' loader d e l s)))
  = checkpoints (trace s).
Proof.
rewrite validate_epoch_closed. simpl. rewrite checkpoints_app.
generalize (validate_losses' d loader s). intros q.
induction q as [|x q IH]; simpl; [apply app_nil_r|exact IH].
Qed.

Lemma validate_epoch_nonempty_ok (loader : list (Batch Obs Act)) (d : Device)
    (e : nat) (l : bool) (s : world') :
  loader <> [] -> exists r, fst (validate_epoch' loader d e l s) = Ok r.
Proof.
intros Hne. rewrite validate_epoch_closed. simpl.
rewrite (truediv_len_nonempty _ Hne). eauto.
Qed.

Lemma epoch_body_checkpoints (cfg : Config) (d : Device)
    (train_loader val_loader : nat -> list (Batch Obs Act)) (epoch : nat)
    (s : world') :
  train_loader epoch <> [] -> val_loader epoch <> [] ->
  fst (epoch_body' cfg d train_loader val_loader epoch s) = Ok tt /\
  checkpoints (trace (snd (epoch_body' cfg d train_loader val_loader epoch s)))
  = checkpoints (trace s) ++
    if epoch_save cfg then [SaveEpoch (epoch + 1)] else [].
Proof.
intros Htrain Hval. unfold epoch_body.
destruct (train_epoch_nonempty_ok model loss_fn backward optimizer_step
            obs_to act_to d epoch (wandb_log cfg) s Htrain) as [r Hr].
pose proof (train_epoch_checkpoints (train_loader epoch) d epoch
              (wandb_log cfg) s) as Hc1.
destruct (train_epoch' (train_loader epoch) d epoch (wandb_log cfg) s)
  as [r' s1]. simpl in Hr, Hc1. subst r'.
destruct (validate_epoch_nonempty_ok d epoch (wandb_log cfg) s1 Hval)
  as [rv Hrv].
pose proof (validate_epoch_checkpoints (val_loader epoch) d epoch
              (wandb_log cfg) s1) as Hc2.
destruct (validate_epoch' (val_loader epoch) d epoch (wandb_log cfg) s1)
  as [rv' s2]. simpl in Hrv, Hc2. subst rv'.
split; [reflexivity|]. simpl.
destruct (epoch_save cfg), (wandb_log cfg); simpl;
  rewrite ?checkpoints_app; simpl; rewrite ?app_nil_r; congruence.
Qed.

Lemma epoch_loop_checkpoints (cfg : Config) (d : Device)
    (train_loader val_loader : nat -> list (Batch Obs Act)) (n : nat) :
  forall (epoch : nat) (s : world'),
    (forall e, (epoch <= e < epoch + n)%nat ->
               train_loader e <> [] /\ val_loader e <> []) ->
    fst (epoch_loop' cfg d train_loader val_loader n epoch s) = Ok tt /\
    checkpoints
      (trace (snd (epoch_loop' cfg d train_loader val_loader n epoch s)))
    = checkpoints (trace s) ++
      if epoch_save cfg then map SaveEpoch (seq (epoch + 1) n) else [].
Proof.
induction n as [|n IH]; intros epoch s Hne; cbn [epoch_loop].
- split; [reflexivity|]. simpl. destruct (epoch_save cfg); now rewrite app_nil_r.
- destruct (Hne epoch ltac:(lia)) as [Ht Hv].
  destruct (@epoch_body_checkpoints cfg d train_loader val_loader epoch s Ht Hv)
    as [Hr Hc].
  destruct (epoch_body' cfg d train_loader val_loader epoch s) as [r s1].
  simpl in Hr, Hc. subst r.
  destruct (IH (S epoch) s1) as [Hr2 Hc2].
  { intros e He. apply Hne. lia. }
  split; [exact Hr2|]. rewrite Hc2, Hc.
  replace (S epoch + 1)%nat with (S (epoch + 1)) by lia.
  destruct (epoch_save cfg); simpl; now rewrite <- app_assoc.
Qed.

(** X19.  A run whose loaders yield at least one batch in every epoch
    returns normally and writes its checkpoints in this order: with
    per-epoch saving, one per epoch, numbered 1, 2, ..., epochs; then, with
    final saving, the final one.  Nothing else is saved, and with no epoch
    at all only the final checkpoint is. *)
Theorem main_checkpoints (cfg : Config) (d : Device)
    (dataset train_dataset val_dataset : list Sample) (s : world') :
  random_split dataset
    (Z.of_nat (length dataset) - int (len dataset * val_ratio cfg))
    (int (len dataset * val_ratio cfg))
  = Ok (train_dataset, val_dataset) ->
  (forall e, (e < epochs cfg)%nat ->
     DataLoader train_dataset (batch_size cfg) true e <> [] /\
     DataLoader val_dataset (batch_size cfg) false e <> []) ->
  fst (main' cfg d dataset s) = Ok tt /\
  checkpoints (trace (snd (main' cfg d dataset s)))
  = checkpoints (trace s) ++
    (if epoch_save cfg then map SaveEpoch (seq 1 (epochs cfg)) else []) ++
    (if save cfg then [SaveModel] else []).
Proof.
intros Hsplit Hne. unfold main. rewrite Hsplit.
set (s1 := if wandb_log cfg then emit WandbInit s else s).
assert (Hs1 : checkpoints (trace s1) = checkpoints (trace s)).
{ subst s1. destruct (wandb_log cfg); [|reflexivity].
  simpl. rewrite checkpoints_app. simpl. apply app_nil_r. }
destruct (@epoch_loop_checkpoints cfg d
            (DataLoader train_dataset (batch_size cfg) true)
            (DataLoader val_dataset (batch_size cfg) false)
            (epochs cfg) 0%nat s1) as [Hr Hc].
{ intros e He. apply Hne. lia. }
destruct (epoch_loop' cfg d _ _ (epochs cfg) 0 s1) as [r s2].
simpl in Hr, Hc. subst r. split; [reflexivity|].
rewrite Hs1 in Hc. simpl.
destruct (save cfg), (wandb_log cfg); simpl;
  rewrite ?checkpoints_app, Hc; simpl; rewrite ?app_nil_r, <- ?app_assoc;
  reflexivity.
Qed.

Lemma validate_epoch_optimizer_calls (loader : list (Batch Obs Act))
    (d : Device) (e : nat) (l : bool) (s : world') :
  filter optimizer_event (trace (snd (validate_epoch' loader d e l s)))
  = filter optimizer_event (trace s).
Proof.
rewrite validate_epoch_closed. simpl. rewrite filter_app.
generalize (validate_losses' d loader s). intros q.
induction q as [|x q IH]; simpl; [apply app_nil_r|exact IH].
Qed.

Lemma epoch_body_failed_validation (cfg : Config) (d : Device)
    (train_loader val_loader : nat -> list (Batch Obs Act)) (epoch : nat)
    (s : world') :
  train_loader epoch <> [] -> val_loader epoch = [] ->
  epoch_body' cfg d train_loader val_loader epoch s
  = (Raise ZeroDivisionError,
     snd (validate_epoch' [] d epoch (wandb_log cfg)
            (snd (train_epoch' (train_loader epoch) d epoch (wandb_log cfg) s)))).
Proof.
intros Htrain Hval. unfold epoch_body.
destruct (train_epoch_nonempty_ok model loss_fn backward optimizer_step
            obs_to act_to d epoch (wandb_log cfg) s Htrain) as [r Hr].
destruct (train_epoch' (train_loader epoch) d epoch (wandb_log cfg) s)
  as [r' s1]. simpl in Hr. subst r'. rewrite Hval. reflexivity.
Qed.

(** X20.  When the validation loader of the first epoch yields no batch,
    a run of at least one epoch ends in [ZeroDivisionError] after a full
    training pass: the optimizer has been stepped once for every training
    batch, and no checkpoint has been written, neither for the epoch nor the
    final one. *)
Theorem main_failed_validation (cfg : Config) (d : Device)
    (dataset train_dataset val_dataset : list Sample) (s : world') :
  random_split dataset
    (Z.of_nat (length dataset) - int (len dataset * val_ratio cfg))
    (int (len dataset * val_ratio cfg))
  = Ok (train_dataset, val_dataset) ->
  epochs cfg <> 0%nat ->
  DataLoader train_dataset (batch_size cfg) true 0 <> [] ->
  DataLoader val_dataset (batch_size cfg) false 0 = [] ->
  fst (main' cfg d dataset s) = Raise ZeroDivisionError /\
  checkpoints (trace (snd (main' cfg d dataset s))) = checkpoints (trace s) /\
  filter optimizer_event (trace (snd (main' cfg d dataset s)))
  = filter optimizer_event (trace s) ++
    flat_map (fun _ => [ZeroGrad; Backward; Step])
             (DataLoader train_dataset (batch_size cfg) true 0).
Proof.
intros Hsplit Hepochs Htrain Hval. unfold main. rewrite Hsplit.
destruct (epochs cfg) as [|n]; [contradiction|]. cbn [epoch_loop].
set (s1 := if wandb_log cfg then emit WandbInit s else s).
assert (Hs1 : checkpoints (trace s1) = checkpoints (trace s) /\
              filter optimizer_event (trace s1)
              = filter optimizer_event (trace s)).
{ subst s1. destruct (wandb_log cfg); [|split; reflexivity].
  simpl. rewrite checkpoints_app, filter_app. simpl.
  now rewrite !app_nil_r. }
destruct Hs1 as [Hc1 Ho1].
rewrite (@epoch_body_failed_validation cfg d
           (DataLoader train_dataset (batch_size cfg) true)
           (DataLoader val_dataset (batch_size cfg) false) 0 s1 Htrain Hval).
cbn [fst snd]. split; [reflexivity|]. split.
- now rewrite validate_epoch_checkpoints, train_epoch_checkpoints.
- rewrite validate_epoch_optimizer_calls.
  rewrite (@train_epoch_project _ (filter optimizer_event)
             (fun _ => [ZeroGrad; Backward; Step])).
  + now rewrite flat_map_const_seq, Ho1.
  + intros a b. apply filter_app.
  + intros idx loss. destruct (wandb_log cfg); reflexivity.
Qed.

End TrainTrace.

Lemma validate_epoch_depends_on_params_witness :
  fst (validate_epoch Toy.model Toy.loss_fn Toy.to Toy.to Toy.dataset cpu 7
         true (World 1%Q (Some 5%Q) tt true [Step]))
  = fst (validate_epoch Toy.model Toy.loss_fn Toy.to Toy.to Toy.dataset cpu 0
           false Toy.s0).
Proof.
exact (proj1 (@validate_epoch_depends_on_params Q Q Q Q Q Toy.model
                Toy.loss_fn unit Toy.to Toy.to Toy.dataset cpu 0%nat 7%nat
                false true Toy.s0 (World 1%Q (Some 5%Q) tt true [Step])
                eq_refl)).
Defined.

Lemma main_checkpoints_witness :
  fst (main Toy.model Toy.loss_fn Toy.backward Toy.optimizer_step
         Toy.to Toy.to Toy.random_split Toy.DataLoader Toy.cfg_third cpu
         Toy.dataset Toy.s0) = Ok tt /\
  checkpoints
    (trace (snd (main Toy.model Toy.loss_fn Toy.backward Toy.optimizer_step
                   Toy.to Toy.to Toy.random_split Toy.DataLoader
                   Toy.cfg_third cpu Toy.dataset Toy.s0)))
  = [SaveEpoch 1; SaveEpoch 2; SaveModel].
Proof.
refine (@main_checkpoints Q Q Q Q Q Toy.model Toy.loss_fn Toy.backward unit
          Toy.optimizer_step Toy.to Toy.to (Q * Q)%type Toy.random_split
          Toy.DataLoader Toy.cfg_third cpu Toy.dataset
          [(1, 2); (2, 4)]%Q [(3, 6)]%Q Toy.s0 eq_refl _).
intros e _. split; discriminate.
Defined.

Lemma main_failed_validation_witness :
  fst (main Toy.model Toy.loss_fn Toy.backward Toy.optimizer_step
         Toy.to Toy.to Toy.random_split Toy.DataLoader Toy.cfg cpu
         Toy.dataset Toy.s0) = Raise ZeroDivisionError /\
  checkpoints
    (trace (snd (main Toy.model Toy.loss_fn Toy.backward Toy.optimizer_step
                   Toy.to Toy.to Toy.random_split Toy.DataLoader Toy.cfg cpu
                   Toy.dataset Toy.s0))) = [].
Proof.
destruct (@main_failed_validation Q Q Q Q Q Toy.model Toy.loss_fn Toy.backward
            unit Toy.optimizer_step Toy.to Toy.to (Q * Q)%type
            Toy.random_split Toy.DataLoader Toy.cfg cpu Toy.dataset
            Toy.dataset [] Toy.s0 eq_refl)
  as (Hr & Hc & _); try discriminate; [reflexivity|].
split; [exact Hr|exact Hc].
Defined.


(** ** The parameters after a training pass *)

Section TrainParameters.

Variables Params Grads Obs Act Pred : Type.
Variable model : bool -> Params -> Obs -> Pred.
Variable loss_fn : Pred -> Act -> Q.
Variable backward : bool -> Params -> Obs -> Act -> option Grads -> Grads.
Variable OptState : Type.
Variable optimizer_step : OptState -> Params -> option Grads -> OptState * Params.
Variable obs_to : Device -> Obs -> Obs.
Variable act_to : Device -> Act -> Act.

Local Abbreviation world' := (world Params Grads OptState).
Local Abbreviation train_batch' :=
  (train_batch model loss_fn backward optimizer_step obs_to act_to).
Local Abbreviation train_epoch' :=
  (train_epoch model loss_fn backward optimizer_step obs_to act_to).

(** One optimizer step on the gradient of the batch [b] alone. *)
Let update (d : Device) (st : OptState * Params) (b : Batch Obs Act)
  : OptState * Params :=
  optimizer_step (fst st) (snd st)
    (Some (backward true (snd st) (obs_to d (fst b)) (act_to d (snd b)) None)).

Lemma train_batch_state (n : nat) (d : Device) (e : nat) (l : bool) (idx : nat)
    (b : Batch Obs Act) (acc : Q) (s : world') :
  training s = true ->
  let s' := snd (train_batch' n d e l idx b (acc, s)) in
  (opt_state s', params s') = update d (opt_state s, params s) b /\
  training s' = true.
Proof.
intros Ht. unfold update, train_batch, step, loss_backward, zero_grad, emit.
simpl. rewrite Ht.
destruct (optimizer_step _ _ _) as [o p]. destruct l; simpl; auto.
Qed.

Lemma train_loop_state (n : nat) (d : Device) (e : nat) (l : bool)
    (loader : list (Batch Obs Act)) :
  forall (idx : nat) (acc : Q) (s : world'),
    training s = true ->
    let s' := snd (enumerate_loop (train_batch' n d e l) idx loader (acc, s)) in
    (opt_state s', params s')
    = fold_left (update d) loader (opt_state s, params s) /\
    training s' = true.
Proof.
induction loader as [|b rest IH]; intros idx acc s Ht;
  cbn [enumerate_loop fold_left].
- auto.
- rewrite train_batch_eq.
  destruct (@train_batch_state n d e l idx b 0%Q s Ht) as [Hst Ht'].
  destruct (IH (S idx) (acc + batch_loss model loss_fn obs_to act_to d b s)%Q
              _ Ht') as [Hst2 Ht2].
  cbv zeta in *. rewrite Hst2, Hst. auto.
Qed.

(** X18.  A training pass applies one optimizer step per batch, in the
    order of the loader, each on the gradient of that batch alone computed
    at the current parameters in training mode: the gradients are cleared
    before every backward pass, so nothing accumulates from one batch to the
    next.  The model is left in training mode. *)
Theorem train_epoch_parameters (loader : list (Batch Obs Act)) (d : Device)
    (e : nat) (l : bool) (s : world') :
  let s' := snd (train_epoch' loader d e l s) in
  (opt_state s', params s')
  = fold_left
      (fun st b =>
         optimizer_step (fst st) (snd st)
           (Some (backward true (snd st) (obs_to d (fst b))
                    (act_to d (snd b)) None)))
      loader (opt_state s, params s) /\
  training s' = true.
Proof.
unfold train_epoch.
pose proof (@train_loop_state (length loader) d e l loader 0%nat 0%Q
              (set_training true s) eq_refl) as Hloop.
destruct (enumerate_loop _ 0 loader (0%Q, set_training true s)) as [total s'].
exact Hloop.
Qed.

End TrainParameters.

(** ** The limit on a grid of any shape *)

Local Open Scope R_scope.

(** X21.  On a map of height H and width W whose only activation is at row
    h, column w, the output of [SpatialSoftmax.forward] tends, as the
    temperature decreases to 0, to the grid entries stored at the flat index
    k = h * W + w: the height coordinate number [k mod H] as x and the width
    coordinate number [k / H] as y. *)
Theorem spatial_softmax_limit_grid (H W h w : nat) (a : R)
    (ch : list (list R)) (eps : R) :
  (h < H)%nat -> (w < W)%nat -> 0 < a ->
  length ch = H ->
  Forall (fun row => length row = W) ch ->
  (forall i j, (i < H)%nat -> (j < W)%nat ->
     nth j (nth i ch []) 0 = if Nat.eqb i h && Nat.eqb j w then a else 0) ->
  0 < eps ->
  exists delta, 0 < delta /\
    forall T, 0 < T < delta ->
    exists x y,
      SpatialSoftmax.forward (SpatialSoftmax.init H W 1 (Some T) NCHW)
        (Tensor4 (1, 1, H, W)%nat [[ch]]) = Ok [[(x, y)]] /\
      Rabs (x - nth ((h * W + w) mod H) (linspace (-1) 1 H) 0) < eps /\
      Rabs (y - nth ((h * W + w) / H) (linspace (-1) 1 W) 0) < eps.
Proof.
intros Hh Hw Ha Hrows Hcols Hpeak Heps.
set (k := (h * W + w)%nat).
assert (HH : H <> 0%nat) by lia.
assert (Hk : (k < H * W)%nat) by (subst k; nia).
assert (Hi : (k / H < W)%nat) by (apply Nat.Div0.div_lt_upper_bound; lia).
assert (Hj : (k mod H < H)%nat) by now apply Nat.mod_upper_bound.
destruct (grid_entries 1 None NCHW Hi Hj) as [Hx Hy].
assert (Hkd : (k / H * H + k mod H = k)%nat).
{ pose proof (Nat.div_mod_eq k H). lia. }
rewrite Hkd in Hx, Hy. rewrite <- Hx, <- Hy.
exact (@spatial_softmax_limit H W h w a ch Hh Hw Ha Hrows Hcols Hpeak eps Heps).
Qed.

Lemma spatial_softmax_limit_grid_witness :
  exists delta, 0 < delta /\
    forall T, 0 < T < delta ->
    exists x y,
      SpatialSoftmax.forward (SpatialSoftmax.init 2 3 1 (Some T) NCHW)
        (Tensor4 (1, 1, 2, 3)%nat [[[[0; 0; 0]; [0; 5; 0]]]]) = Ok [[(x, y)]] /\
      Rabs (x - nth ((1 * 3 + 1) mod 2) (linspace (-1) 1 2) 0) < 1 / 10 /\
      Rabs (y - nth ((1 * 3 + 1) / 2) (linspace (-1) 1 3) 0) < 1 / 10.
Proof.
apply (@spatial_softmax_limit_grid 2 3 1 1 5 [[0; 0; 0]; [0; 5; 0]] (1 / 10));
  try lia; try lra.
- reflexivity.
- repeat constructor.
- intros [|[|i]] [|[|[|j]]] Hi Hj; try lia; simpl; reflexivity.
Defined.

Lemma spatial_softmax_limit_square_witness :
  exists delta, 0 < delta /\
    forall T, 0 < T < delta ->
    exists x y,
      SpatialSoftmax.forward (SpatialSoftmax.init 2 2 1 (Some T) NCHW)
        (Tensor4 (1, 1, 2, 2)%nat [[[[0; 3]; [0; 0]]]]) = Ok [[(x, y)]] /\
      Rabs (x - nth 1 (linspace (-1) 1 2) 0) < 1 / 10 /\
      Rabs (y - nth 0 (linspace (-1) 1 2) 0) < 1 / 10.
Proof.
apply (@spatial_softmax_limit_square 2 0 1 3 [[0; 3]; [0; 0]] (1 / 10));
  try lia; try lra.
- reflexivity.
- repeat constructor.
- intros [|[|i]] [|[|j]] Hi Hj; try lia; simpl; reflexivity.
Defined.
